(** * Event calendar scraper: a shallow embedding of [scraper.py]

    The development follows the module layout of the program:
    text helpers, timestamps, the event record, the two sources
    ([GenericHTMLSource], [SchemaOrgSource]), [EventFilter],
    [CalendarGenerator] and [EventAggregator].

    Conventions of the embedding.
    - A Python [str] is a [string]; a character is read as the code point
      of the same number (U+0000 .. U+00FF).
    - A dictionary with a fixed set of possible keys is a record of
      [option]s: [None] is "key absent" ([dict.get] then yields its
      default).
    - A [datetime] is naive or aware: it carries the offset of its time
      zone from UTC, if it has one.  The time-zone objects themselves
      are not kept: the date parser attaches a fixed offset, UTC, or a
      local-zone object of its own to each value it returns, so two of
      its values share a time-zone object only when their offsets are
      the same.
    - Calls into libraries (HTTP, HTML and JSON parsing, date parsing,
      URL joining, hashing, the clock, opening and writing a file) are
      section variables; where the call can raise, its result is a
      [result]. *)

From Stdlib Require Import ZArith Ascii String.
From stdpp Require Import list strings pretty.

Local Open Scope Z_scope.

(** ** Python text helpers *)

Module Py.

(** Truth value of a string: non-empty. *)
Definition truthy (s : string) : bool :=
  match s with "" => false | _ => true end.

(** Truth value of [d.get(k)] for a text entry. *)
Definition truthy_opt (o : option string) : bool :=
  match o with Some s => truthy s | None => false end.

Definition code (c : ascii) : Z := Z.of_N (N_of_ascii c).

(** [str.isspace] on one character. *)
Definition isspace (c : ascii) : bool :=
  let n := code c in
  ((9 <=? n) && (n <=? 13)) || ((28 <=? n) && (n <=? 32))
  || (n =? 133) || (n =? 160).

Fixpoint lstrip (s : string) : string :=
  match s with
  | String c s' => if isspace c then lstrip s' else s
  | "" => ""
  end.

Definition rstrip (s : string) : string := String.rev (lstrip (String.rev s)).

(** [s.strip()] *)
Definition strip (s : string) : string := lstrip (rstrip s).

Definition lower_char (c : ascii) : ascii :=
  let n := code c in
  if ((65 <=? n) && (n <=? 90))
     || ((192 <=? n) && (n <=? 222) && negb (n =? 215))
  then ascii_of_N (Z.to_N (n + 32)) else c.

(** [s.lower()] *)
Fixpoint lower (s : string) : string :=
  match s with
  | String c s' => String (lower_char c) (lower s')
  | "" => ""
  end.

(** [s.startswith(p)] *)
Definition startswith (s p : string) : bool := String.prefix p s.

(** [needle in hay] *)
Fixpoint contains (needle hay : string) : bool :=
  String.prefix needle hay
  || match hay with
     | String _ hay' => contains needle hay'
     | "" => false
     end.

(** [s.split(sep)] for a one-character separator. *)
Fixpoint split (sep : ascii) (s : string) : list string :=
  match s with
  | "" => [""]
  | String c s' =>
      if Ascii.eqb c sep then "" :: split sep s'
      else match split sep s' with
           | p :: ps => String c p :: ps
           | [] => [String c ""]
           end
  end.

(** [s.replace(a, b)] for single characters. *)
Fixpoint replace (a b : ascii) (s : string) : string :=
  match s with
  | String c s' => String (if Ascii.eqb c a then b else c) (replace a b s')
  | "" => ""
  end.

(** [sep.join(parts)] *)
Fixpoint join (sep : string) (parts : list string) : string :=
  match parts with
  | [] => ""
  | [p] => p
  | p :: ps => p +:+ sep +:+ join sep ps
  end.

(** [str(n)] for an integer. *)
Definition str_int (n : Z) : string := pretty n.

(** Decimal numeral of [n], left-padded with zeros to [width] digits. *)
Fixpoint zfill_go (pad : nat) (s : string) : string :=
  match pad with
  | O => s
  | S k => zfill_go k (String "0" s)
  end.

Definition zfill (width : nat) (n : Z) : string :=
  let s := pretty (Z.to_N n) in
  zfill_go (width - String.length s) s.

End Py.

(** ** Exceptions *)

(** An exception of class [Exception] or below, the kind both [except]
    clauses of the sources catch. *)
Inductive exn := Exception (message : string).

Inductive result (A : Type) :=
| Ok (a : A)
| Raise (e : exn).
Arguments Ok {A} a.
Arguments Raise {A} e.

(** ** Timestamps *)

(** A [datetime]: its calendar and clock fields, and [utcoffset], the
    offset of its time zone from UTC in microseconds, [None] for a naive
    value. *)
Record datetime := mk_datetime {
  year : Z; month : Z; day : Z;
  hour : Z; minute : Z; second : Z; microsecond : Z;
  utcoffset : option Z
}.

Definition lex (c1 c2 : comparison) : comparison :=
  match c1 with Eq => c2 | _ => c1 end.

(** The order of the calendar and clock fields, most significant first. *)
Definition fields_compare (a b : datetime) : comparison :=
  lex (year a ?= year b)
  (lex (month a ?= month b)
  (lex (day a ?= day b)
  (lex (hour a ?= hour b)
  (lex (minute a ?= minute b)
  (lex (second a ?= second b)
       (microsecond a ?= microsecond b)))))).

Definition is_leap (y : Z) : bool :=
  (y mod 4 =? 0) && (negb (y mod 100 =? 0) || (y mod 400 =? 0)).

Definition days_before_year (y : Z) : Z :=
  let y := y - 1 in y * 365 + y / 4 - y / 100 + y / 400.

Definition days_before_month (y m : Z) : Z :=
  nth (Z.to_nat m) [0; 0; 31; 59; 90; 120; 151; 181; 212; 243; 273; 304; 334] 0
  + (if (2 <? m) && is_leap y then 1 else 0).

(** [d.toordinal()] *)
Definition toordinal (d : datetime) : Z :=
  days_before_year (year d) + days_before_month (year d) (month d) + day d.

(** The instant of a value, in microseconds, its offset taken off. *)
Definition utc_micros (d : datetime) : Z :=
  (((toordinal d * 24 + hour d) * 60 + minute d) * 60 + second d) * 1000000
  + microsecond d - default 0 (utcoffset d).

(** The comparison behind [<] and [>]: values with the same offset (two
    naive ones among them) are compared by their fields, aware values
    with different offsets by their instants (the difference of the two
    values, offsets taken off), and comparing a naive with an aware
    value raises [TypeError]. *)
Definition dt_compare (a b : datetime) : result comparison :=
  if bool_decide (utcoffset a = utcoffset b) then Ok (fields_compare a b)
  else match utcoffset a, utcoffset b with
       | Some _, Some _ => Ok (utc_micros a ?= utc_micros b)
       | _, _ => Raise (Exception "TypeError")
       end.

(** [a < b] *)
Definition dt_lt (a b : datetime) : result bool :=
  match dt_compare a b with
  | Ok Lt => Ok true
  | Ok _ => Ok false
  | Raise e => Raise e
  end.

(** [a > b] *)
Definition dt_gt (a b : datetime) : result bool :=
  match dt_compare a b with
  | Ok Gt => Ok true
  | Ok _ => Ok false
  | Raise e => Raise e
  end.

(** [d.strftime('%Y-%m')]: the year as the C library of the platform
    prints it, without padding, and the month in two digits. *)
Definition strftime_Y_m (d : datetime) : string :=
  Py.str_int (year d) +:+ "-" +:+ Py.zfill 2 (month d).

(** The offset as [str] prints it: sign, hours and minutes, then seconds
    and their fraction when they are not zero. *)
Definition str_offset (off : Z) : string :=
  let sign := if off <? 0 then "-" else "+" in
  let off := Z.abs off in
  let hh := off / 3600000000 in
  let mm := (off mod 3600000000) / 60000000 in
  let ss := off mod 60000000 in
  sign +:+ Py.zfill 2 hh +:+ ":" +:+ Py.zfill 2 mm
  +:+ (if ss =? 0 then ""
       else ":" +:+ Py.zfill 2 (ss / 1000000)
            +:+ (if ss mod 1000000 =? 0 then ""
                 else "." +:+ Py.zfill 6 (ss mod 1000000))).

(** [str(d)]: ISO form with a space separator; the fraction is printed
    only when the microsecond field is non-zero, the offset only for an
    aware value. *)
Definition str_datetime (d : datetime) : string :=
  Py.zfill 4 (year d) +:+ "-" +:+ Py.zfill 2 (month d) +:+ "-"
  +:+ Py.zfill 2 (day d) +:+ " " +:+ Py.zfill 2 (hour d) +:+ ":"
  +:+ Py.zfill 2 (minute d) +:+ ":" +:+ Py.zfill 2 (second d)
  +:+ (if microsecond d =? 0 then "" else "." +:+ Py.zfill 6 (microsecond d))
  +:+ match utcoffset d with Some off => str_offset off | None => "" end.

(** ** The event record

    The dictionaries built by the sources.  [GenericHTMLSource] never
    sets the [end] key; both sources always set the four text keys. *)

Record Event := mk_event {
  title : option string;
  start : option datetime;
  end_ : option datetime;
  location : option string;
  description : option string;
  url : option string
}.

(** ** Insertion-ordered dictionaries

    [get_location_groups] and [_group_by_month] build a [dict] whose
    [items()] are later walked in insertion order, each item becoming a
    file write; the order decides which write wins when two keys yield
    the same file name, so the dictionary is kept as an ordered list of
    items with distinct keys. *)

Section Dict.
Context {V : Type}.

Definition dict := list (string * V).

(** [d.get(k)] *)
Fixpoint dict_get (k : string) (d : dict) : option V :=
  match d with
  | [] => None
  | (k', v) :: d' => if String.eqb k k' then Some v else dict_get k d'
  end.

(** [k in d] *)
Definition dict_mem (k : string) (d : dict) : bool :=
  match dict_get k d with Some _ => true | None => false end.

(** [d[k] = v] for a key not yet in [d]. *)
Definition dict_add (k : string) (v : V) (d : dict) : dict := d ++ [(k, v)].

(** [d[k] = f(d[k])] for a key in [d]. *)
Fixpoint dict_update (k : string) (f : V → V) (d : dict) : dict :=
  match d with
  | [] => []
  | (k', v) :: d' =>
      if String.eqb k k' then (k', f v) :: d' else (k', v) :: dict_update k f d'
  end.
End Dict.
Arguments dict : clear implicits.

(** The shared body of both grouping loops:
    [if key not in groups: groups[key] = []] then
    [groups[key].append(event)]. *)
Definition group_append (key : string) (event : Event)
    (groups : dict (list Event)) : dict (list Event) :=
  let groups := if dict_mem key groups then groups else dict_add key [] groups in
  dict_update key (λ bucket, bucket ++ [event]) groups.

(** ** EventFilter *)

(** A [locations] or [keywords] section of the filter configuration;
    [enabled] is the truth value of the section's entry of that name. *)
Record TermSection := mk_terms {
  enabled : bool;
  include : option (list string);
  exclude : option (list string)
}.

Record DateRangeSection := mk_date_range {
  dr_enabled : bool;
  start_date : option string;
  end_date : option string
}.

Record FilterConfig := mk_filter_config {
  locations : option TermSection;
  keywords : option TermSection;
  date_range : option DateRangeSection
}.

(** [{}] read as a section. *)
Definition no_terms : TermSection := mk_terms false None None.
Definition no_date_range : DateRangeSection := mk_date_range false None None.

Module EventFilter.
Section Filter.

(** [dateutil.parser.parse(s)]; [None] when it raises. *)
Variable parse : string → option datetime.

(** [any(t.lower() in text for t in terms)] *)
Definition any_term_in (terms : list string) (text : string) : bool :=
  existsb (λ t, Py.contains (Py.lower t) text) terms.

Definition nonempty {A} (l : list A) : bool :=
  match l with [] => false | _ => true end.

Definition _filter_by_location (config : FilterConfig)
    (events : list Event) : list Event :=
  let loc_config := default no_terms (locations config) in
  let include := default [] (include loc_config) in
  let exclude := default [] (exclude loc_config) in
  foldl (λ filtered event,
    let location := Py.lower (default "" (location event)) in
    if any_term_in exclude location then filtered
    else if nonempty include then
      if any_term_in include location then filtered ++ [event] else filtered
    else filtered ++ [event]) [] events.

Definition _filter_by_keywords (config : FilterConfig)
    (events : list Event) : list Event :=
  let kw_config := default no_terms (keywords config) in
  let include := default [] (include kw_config) in
  let exclude := default [] (exclude kw_config) in
  foldl (λ filtered event,
    let text := Py.lower (default "" (title event) +:+ " "
                          +:+ default "" (description event)) in
    if any_term_in exclude text then filtered
    else if nonempty include then
      if any_term_in include text then filtered ++ [event] else filtered
    else filtered ++ [event]) [] events.

(** The guarded parse of one configured bound:
    [if dr_config.get(k): try: b = parser.parse(dr_config[k]) except: pass] *)
Definition parse_bound (entry : option string) : option datetime :=
  match entry with
  | Some s => if Py.truthy s then parse s else None
  | None => None
  end.

(** A comparison is made only when its bound is there, the second only
    when the first did not drop the record.  The loop stops at the first
    comparison that raises; nothing in the filter catches the exception. *)
Definition _filter_by_date_range (config : FilterConfig)
    (events : list Event) : result (list Event) :=
  let dr_config := default no_date_range (date_range config) in
  let start_date := parse_bound (start_date dr_config) in
  let end_date := parse_bound (end_date dr_config) in
  foldl (λ filtered event,
    match filtered with
    | Raise e => Raise e
    | Ok filtered =>
        match start event with
        | None => Ok filtered
        | Some event_date =>
            match match start_date with
                  | Some b => dt_lt event_date b
                  | None => Ok false
                  end with
            | Raise e => Raise e
            | Ok true => Ok filtered
            | Ok false =>
                match match end_date with
                      | Some b => dt_gt event_date b
                      | None => Ok false
                      end with
                | Raise e => Raise e
                | Ok true => Ok filtered
                | Ok false => Ok (filtered ++ [event])
                end
            end
        end
    end) (Ok []) events.

Definition filter_events (config : FilterConfig)
    (events : list Event) : result (list Event) :=
  let filtered := events in
  let filtered :=
    if enabled (default no_terms (locations config))
    then _filter_by_location config filtered else filtered in
  let filtered :=
    if enabled (default no_terms (keywords config))
    then _filter_by_keywords config filtered else filtered in
  if dr_enabled (default no_date_range (date_range config))
  then _filter_by_date_range config filtered else Ok filtered.

Definition _normalize_location (location : string) : string :=
  let location := Py.strip location in
  if Py.contains "," location then
    let parts := map Py.strip (Py.split "," location) in
    default location (last parts)
  else location.

Definition get_location_groups (events : list Event)
    : dict (list Event) :=
  foldl (λ groups event,
    let location := default "Unknown" (location event) in
    let location_key := _normalize_location location in
    group_append location_key event groups) [] events.

End Filter.
End EventFilter.


(** ** Exceptions, and the state of a running [fetch_events] *)

(** The two messages the sources print. *)
Inductive diagnostic :=
| ErrorParsingEvent (e : exn)
| ErrorFetching (url : string) (e : exn).

(** The local list [events] and the console.  An exception leaves both as
    they were when it was raised. *)
Record frame := mk_frame {
  events : list Event;
  stdout : list diagnostic
}.

Definition M (A : Type) : Type := frame → result A * frame.

Definition ret {A} (a : A) : M A := λ s, (Ok a, s).

Definition bind {A B} (m : M A) (k : A → M B) : M B :=
  λ s, match m s with
       | (Ok a, s') => k a s'
       | (Raise e, s') => (Raise e, s')
       end.

(** The outcome of a library call, raised in place when it is an exception. *)
Definition call {A} (r : result A) : M A := λ s, (r, s).

Definition append (event : Event) : M unit :=
  λ s, (Ok tt, mk_frame (events s ++ [event]) (stdout s)).

Definition print (d : diagnostic) : M unit :=
  λ s, (Ok tt, mk_frame (events s) (stdout s ++ [d])).

(** [try: body  except Exception as e: handler(e)] *)
Definition try_except (body : M unit) (handler : exn → M unit) : M unit :=
  λ s, match body s with
       | (Ok _, s') => (Ok tt, s')
       | (Raise e, s') => handler e s'
       end.

(** [for x in l: body(x)] *)
Fixpoint for_each {A} (l : list A) (body : A → M unit) : M unit :=
  match l with
  | [] => ret tt
  | x :: l' => bind (body x) (λ _, for_each l' body)
  end.

Notation "'let*' x ':=' m 'in' k" := (bind m (λ x, k))
  (at level 10, x name, m at level 100, k at level 200, only parsing).

(** [events = []; body; return events], as the caller sees it. *)
Definition returning_events (body : M unit) : result (list Event) * list diagnostic :=
  match body (mk_frame [] []) with
  | (Ok _, s) => (Ok (events s), stdout s)
  | (Raise e, s) => (Raise e, stdout s)
  end.

(** ** What the sources read *)

Record Response := mk_response {
  status_code : Z;
  content : string
}.

(** [response.raise_for_status()] *)
Definition raise_for_status (response : Response) : result unit :=
  if (400 <=? status_code response) && (status_code response <? 600)
  then Raise (Exception "HTTPError") else Ok tt.

(** An element of the parsed page, as far as the program looks at it:
    its text, its [href] attribute, and what [select_one] finds below it
    (raising on a selector the library rejects). *)
#[warnings="-register-all"]
Inductive Tag :=
| MkTag (text : string) (href : option string)
        (select_one : string → result (option Tag)).

Definition text (t : Tag) : string := let 'MkTag x _ _ := t in x.
Definition href (t : Tag) : option string := let 'MkTag _ h _ := t in h.
Definition select_one (t : Tag) : string → result (option Tag) :=
  let 'MkTag _ _ f := t in f.

(** Decoded JSON-LD, as far as the program looks at it.  Text properties
    are strings when present. *)
Inductive LdAddress :=
| AddrText (s : string)
| AddrDict (streetAddress addressLocality : option string).

Inductive LdLocation :=
| LocText (s : string)
| LocDict (name : option string) (address : option LdAddress).

Record LdObject := mk_ld {
  ld_type : option string;
  ld_name : option string;
  ld_startDate : option string;
  ld_endDate : option string;
  ld_location : option LdLocation;
  ld_description : option string;
  ld_url : option string
}.

(** An entry of a decoded array: an object, or something without [get]. *)
Inductive LdItem :=
| ItemDict (d : LdObject)
| ItemOther.

(** The value [json.loads] returns: an array, an object, or a scalar. *)
Inductive LdData :=
| DataList (items : list LdItem)
| DataDict (d : LdObject)
| DataOther.

Record Selectors := mk_selectors {
  sel_container : option string;
  sel_title : option string;
  sel_date : option string;
  sel_location : option string;
  sel_description : option string;
  sel_url : option string
}.

Record GenericHTMLSource := mk_html_source {
  html_url : string;
  selectors : Selectors
}.

Record SchemaOrgSource := mk_schema_source {
  schema_url : string
}.

Inductive EventSource :=
| HTML (self : GenericHTMLSource)
| Schema (self : SchemaOrgSource).


(** ** GenericHTMLSource and SchemaOrgSource *)

Module Source.
Section Web.

(** [requests.get(url, timeout=15, headers=headers)] *)
Variable requests_get : string → result Response.
(** [BeautifulSoup(content, 'html.parser').select(selector)] *)
Variable soup_select : string → string → result (list Tag).
(** The [.string] of every element of
    [BeautifulSoup(content, 'html.parser').find_all('script', type='application/ld+json')] *)
Variable soup_ld_json : string → result (list (option string)).
(** [json.loads(s)] *)
Variable json_loads : string → result LdData.
(** [dateutil.parser.parse(s)]; [None] when it raises. *)
Variable parse : string → option datetime.
(** [dateutil.parser.parse(s, fuzzy=True)]; [None] when it raises. *)
Variable parse_fuzzy : string → option datetime.
(** [urllib.parse.urljoin(base, url)] *)
Variable urljoin : string → string → string.

Definition _extract_text (elem : Tag) (selector : option string) : result string :=
  if negb (Py.truthy_opt selector) then Ok ""
  else match select_one elem (default "" selector) with
       | Raise e => Raise e
       | Ok (Some found) => Ok (Py.strip (text found))
       | Ok None => Ok ""
       end.

Definition _extract_date (elem : Tag) (selector : option string)
    : result (option datetime) :=
  match _extract_text elem selector with
  | Raise e => Raise e
  | Ok text => if negb (Py.truthy text) then Ok None else Ok (parse_fuzzy text)
  end.

Definition _extract_url (self : GenericHTMLSource) (elem : Tag)
    (selector : option string) : result string :=
  if negb (Py.truthy_opt selector) then Ok ""
  else match select_one elem (default "" selector) with
       | Raise e => Raise e
       | Ok (Some found) =>
           if Py.truthy_opt (href found) then
             let href := default "" (href found) in
             if Py.startswith href "/" then Ok (urljoin (html_url self) href)
             else Ok href
           else Ok ""
       | Ok None => Ok ""
       end.

(** The body of the inner [try] of [GenericHTMLSource.fetch_events]. *)
Definition html_element (self : GenericHTMLSource) (elem : Tag) : M unit :=
  let sel := selectors self in
  let* title := call (_extract_text elem (sel_title sel)) in
  let* start := call (_extract_date elem (sel_date sel)) in
  let* location := call (_extract_text elem (sel_location sel)) in
  let* description := call (_extract_text elem (sel_description sel)) in
  let* url := call (_extract_url self elem (sel_url sel)) in
  let event := mk_event (Some title) start None (Some location)
                        (Some description) (Some url) in
  if Py.truthy title && bool_decide (is_Some start)
  then append event else ret tt.

Definition html_fetch_events (self : GenericHTMLSource)
    : result (list Event) * list diagnostic :=
  returning_events
    (try_except
       (let* response := call (requests_get (html_url self)) in
        let* _ := call (raise_for_status response) in
        let* event_elements :=
          call (soup_select (content response)
                  (default ".event" (sel_container (selectors self)))) in
        for_each event_elements (λ elem,
          try_except (html_element self elem)
                     (λ e, print (ErrorParsingEvent e))))
       (λ e, print (ErrorFetching (html_url self) e))).

Definition _extract_location (loc : LdLocation) : string :=
  match loc with
  | LocDict name address =>
      if Py.truthy_opt name then default "" name
      else match address with
           | Some (AddrDict streetAddress addressLocality) =>
               let parts := [default "" streetAddress; default "" addressLocality] in
               Py.join ", " (List.filter Py.truthy parts)
           | Some (AddrText s) => s
           | None => ""
           end
  | LocText s => if Py.truthy s then s else ""
  end.

Definition _parse_event (data : LdObject) : Event :=
  let start_date :=
    if Py.truthy_opt (ld_startDate data)
    then parse (default "" (ld_startDate data)) else None in
  let end_date :=
    if Py.truthy_opt (ld_endDate data)
    then parse (default "" (ld_endDate data)) else None in
  mk_event (Some (default "" (ld_name data)))
           start_date
           end_date
           (Some (_extract_location (default (LocDict None None) (ld_location data))))
           (Some (default "" (ld_description data)))
           (Some (default "" (ld_url data))).

Definition is_event (d : LdObject) : bool :=
  bool_decide (ld_type d = Some "Event").

(** [[item for item in data if item.get('@type') == 'Event']] *)
Fixpoint event_items (data : list LdItem) : result (list LdObject) :=
  match data with
  | [] => Ok []
  | ItemOther :: _ => Raise (Exception "AttributeError")
  | ItemDict d :: rest =>
      match event_items rest with
      | Raise e => Raise e
      | Ok ds => Ok (if is_event d then d :: ds else ds)
      end
  end.

(** The body of the inner [try] of [SchemaOrgSource.fetch_events]. *)
Definition schema_script (script_string : option string) : M unit :=
  let* data := call (match script_string with
                     | Some s => json_loads s
                     | None => Raise (Exception "TypeError")
                     end) in
  let* events_data :=
    call (match data with
          | DataList items => event_items items
          | DataDict d => Ok (if is_event d then [d] else [])
          | DataOther => Raise (Exception "AttributeError")
          end) in
  for_each events_data (λ event_data, append (_parse_event event_data)).

Definition schema_fetch_events (self : SchemaOrgSource)
    : result (list Event) * list diagnostic :=
  returning_events
    (try_except
       (let* response := call (requests_get (schema_url self)) in
        let* _ := call (raise_for_status response) in
        let* scripts := call (soup_ld_json (content response)) in
        for_each scripts (λ script,
          try_except (schema_script script) (λ e, ret tt)))
       (λ e, print (ErrorFetching (schema_url self) e))).

(** [source.fetch_events()] *)
Definition fetch_events (source : EventSource)
    : result (list Event) * list diagnostic :=
  match source with
  | HTML self => html_fetch_events self
  | Schema self => schema_fetch_events self
  end.

End Web.
End Source.


(** ** CalendarGenerator

    The calendar is kept as the component tree the program builds with
    [icalendar]: the properties added to the calendar, and one property
    list per event block added with [add_component].  Turning the tree
    into text ([to_ical]) is the library's business. *)

Inductive prop_value :=
| Text (s : string)
| DateTime (d : datetime).

Definition component := list (string * prop_value).

Record Calendar := mk_calendar {
  cal_properties : component;
  cal_events : list component
}.

(** [c.add(name, value)] *)
Definition add (name : string) (value : prop_value) (c : component) : component :=
  c ++ [(name, value)].

(** [c.get(name)]: the first property of that name. *)
Fixpoint property (name : string) (c : component) : option prop_value :=
  match c with
  | [] => None
  | (n, v) :: c' => if String.eqb name n then Some v else property name c'
  end.

Record CalendarGenerator := mk_generator {
  calendar_name : string
}.

Module Generator.
Section Clock.

(** The built-in [hash] on strings. *)
Variable hash : string → Z.
(** [datetime.now()] when the event block with the given index is built. *)
Variable now : nat → datetime.

(** The event block built by one pass of the loop body for a record whose
    [start] is [dtstart]; [n] blocks were added before. *)
Definition event_block (event_data : Event) (dtstart : datetime) (n : nat)
    : component :=
  let event := [] in
  let event := add "summary" (Text (default "Untitled Event" (title event_data))) event in
  let event := add "dtstart" (DateTime dtstart) event in
  let event := match end_ event_data with
               | Some e => add "dtend" (DateTime e) event
               | None => event
               end in
  let event := if Py.truthy_opt (location event_data)
               then add "location" (Text (default "" (location event_data))) event
               else event in
  let event := if Py.truthy_opt (description event_data)
               then add "description" (Text (default "" (description event_data))) event
               else event in
  let event := if Py.truthy_opt (url event_data)
               then add "url" (Text (default "" (url event_data))) event
               else event in
  let uid := Py.str_int (hash (default "" (title event_data) +:+ str_datetime dtstart))
             +:+ "@event-aggregator" in
  let event := add "uid" (Text uid) event in
  let event := add "dtstamp" (DateTime (now n)) event in
  event.

Definition generate (self : CalendarGenerator) (events : list Event)
    (calendar_name_arg : option string) : Calendar :=
  let cal := [] in
  let cal := add "prodid" (Text "-//Event Aggregator//EN") cal in
  let cal := add "version" (Text "2.0") cal in
  let cal := add "x-wr-calname"
               (Text (if Py.truthy_opt calendar_name_arg
                      then default "" calendar_name_arg
                      else calendar_name self)) cal in
  let cal := add "x-wr-timezone" (Text "UTC") cal in
  let subcomponents :=
    foldl (λ blocks event_data,
      match start event_data with
      | None => blocks
      | Some dtstart => blocks ++ [event_block event_data dtstart (length blocks)]
      end) [] events in
  mk_calendar cal subcomponents.

End Clock.
End Generator.

(** ** EventAggregator *)

Record Outputs := mk_outputs {
  main_calendar : option string;
  by_location : bool;
  by_month : bool
}.

Record Config := mk_config {
  cfg_calendar_name : option string;
  filters : option FilterConfig;
  outputs : option Outputs
}.

Definition no_filters : FilterConfig := mk_filter_config None None None.
Definition no_outputs : Outputs := mk_outputs None false false.

Module Aggregator.
Section Run.

Variable requests_get : string → result Response.
Variable soup_select : string → string → result (list Tag).
Variable soup_ld_json : string → result (list (option string)).
Variable json_loads : string → result LdData.
Variable parse : string → option datetime.
Variable parse_fuzzy : string → option datetime.
Variable urljoin : string → string → string.
Variable hash : string → Z.
Variable now : nat → datetime.

(** [open(filename, 'w', encoding='utf-8')] and [f.write(ics_content)],
    for the n-th file of a run: done, or the exception either raises. *)
Variable write_file : nat → string → Calendar → result unit.

Variable sources : list EventSource.
Variable config : Config.

Definition event_filter : FilterConfig := default no_filters (filters config).
Definition generator : CalendarGenerator :=
  mk_generator (default "My Events" (cfg_calendar_name config)).

(** [collect_events]: the records of every source, in source order; an
    exception leaving a [fetch_events] call would leave this one too. *)
Definition collect_events : result (list Event) :=
  foldl (λ all_events source,
    match all_events with
    | Raise e => Raise e
    | Ok all_events =>
        match fst (Source.fetch_events requests_get soup_select soup_ld_json
                     json_loads parse parse_fuzzy urljoin source) with
        | Raise e => Raise e
        | Ok events => Ok (all_events ++ events)
        end
    end) (Ok []) sources.

Definition _group_by_month (events : list Event) : dict (list Event) :=
  foldl (λ groups event,
    match start event with
    | Some d => group_append (strftime_Y_m d) event groups
    | None => groups
    end) [] events.

(** A character matched by [\w]. *)
Definition is_word (c : ascii) : bool :=
  let n := Py.code c in
  ((48 <=? n) && (n <=? 57)) || ((65 <=? n) && (n <=? 90))
  || ((97 <=? n) && (n <=? 122)) || (n =? 95)
  || (n =? 170) || (n =? 178) || (n =? 179) || (n =? 181)
  || (n =? 185) || (n =? 186) || ((188 <=? n) && (n <=? 190))
  || ((192 <=? n) && (n <=? 214)) || ((216 <=? n) && (n <=? 246))
  || (248 <=? n).

(** [re.sub(r'[^\w\s-]', '', s)] *)
Fixpoint strip_unsafe (s : string) : string :=
  match s with
  | "" => ""
  | String c s' =>
      if is_word c || Py.isspace c || Ascii.eqb c "-"
      then String c (strip_unsafe s') else strip_unsafe s'
  end.

Definition safe_location (location : string) : string :=
  Py.replace " " "_" (Py.strip (strip_unsafe location)).

(** One call [_save_calendar(events, filename, calendar_name)]. *)
Record save_call := mk_save {
  save_events : list Event;
  save_filename : string;
  save_calendar_name : option string
}.

(** The calls of [_save_calendar] made by [generate_calendars] for the
    filtered list, in order. *)
Definition save_calls (filtered_events : list Event) : list save_call :=
  let outputs := default no_outputs (outputs config) in
  let main_file := default "events.ics" (main_calendar outputs) in
  [mk_save filtered_events main_file None]
  ++ (if by_location outputs then
        map (λ '(location, events),
               mk_save events ("events_" +:+ safe_location location +:+ ".ics")
                       (Some ("Events - " +:+ location)))
            (EventFilter.get_location_groups filtered_events)
      else [])
  ++ (if by_month outputs then
        map (λ '(month_key, events),
               mk_save events ("events_" +:+ month_key +:+ ".ics")
                       (Some ("Events - " +:+ month_key)))
            (_group_by_month filtered_events)
      else []).

(** The file a call of [_save_calendar] is to write: its name and the
    calendar generated for it. *)
Definition ics_file (c : save_call) : string * Calendar :=
  (save_filename c,
   Generator.generate hash now generator (save_events c) (save_calendar_name c)).

(** [_save_calendar], as the n-th of a run. *)
Definition _save_calendar (n : nat) (c : save_call) : result unit :=
  let ics_content := snd (ics_file c) in
  write_file n (save_filename c) ics_content.

(** The calls in order, up to the first that raises: how the run of
    them ends, and the files written by then. *)
Definition save_all (calls : list save_call)
    : result unit * list (string * Calendar) :=
  foldl (λ '(outcome, written) c,
    match outcome with
    | Raise e => (Raise e, written)
    | Ok _ =>
        match _save_calendar (length written) c with
        | Raise e => (Raise e, written)
        | Ok _ => (Ok tt, written ++ [ics_file c])
        end
    end) (Ok tt, []) calls.

(** [generate_calendars]: how the call ends, and the files written, in
    order.  An exception of [collect_events], of [filter_events] or of a
    [_save_calendar] leaves the call. *)
Definition generate_calendars : result unit * list (string * Calendar) :=
  match collect_events with
  | Raise e => (Raise e, [])
  | Ok all_events =>
      match EventFilter.filter_events parse event_filter all_events with
      | Raise e => (Raise e, [])
      | Ok filtered_events => save_all (save_calls filtered_events)
      end
  end.

End Run.
End Aggregator.


(** ** Sample pages and records *)

Module Sample.

Definition mar15 : datetime := mk_datetime 2024 3 15 10 0 0 0 None.
Definition jan01 : datetime := mk_datetime 2024 1 1 0 0 0 0 None.
Definition dec31 : datetime := mk_datetime 2024 12 31 0 0 0 0 None.

(** 15 March at 10:00, one hour east of UTC, and the same instant as
    UTC sees it. *)
Definition mar15_cet : datetime := mk_datetime 2024 3 15 10 0 0 0 (Some 3600000000).
Definition mar15_utc : datetime := mk_datetime 2024 3 15 9 0 0 0 (Some 0).

(** A date parser that knows five spellings; one with an offset gives
    an aware value. *)
Definition parse (s : string) : option datetime :=
  if String.eqb s "2024-03-15T10:00:00" then Some mar15
  else if String.eqb s "2024-01-01" then Some jan01
  else if String.eqb s "2024-12-31" then Some dec31
  else if String.eqb s "2024-03-15T10:00:00+01:00" then Some mar15_cet
  else if String.eqb s "2024-03-15T09:00:00Z" then Some mar15_utc
  else None.

Definition parse_fuzzy (s : string) : option datetime :=
  if String.eqb s "March 15, 2024 10:00" then Some mar15 else parse s.

(** A resolver for site-absolute paths below [https://example.org]. *)
Definition urljoin (base url : string) : string :=
  "https://example.org" +:+ url.

Definition hash (s : string) : Z := Z.of_nat (String.length s).
Definition now (n : nat) : datetime := jan01.

(** A directory in which every file can be written, and one in which
    only the first write of a run succeeds. *)
Definition write_file (n : nat) (filename : string) (content : Calendar)
    : result unit := Ok tt.

Definition requests_get (url : string) : result Response :=
  if String.eqb url "https://example.org/down" then Raise (Exception "ConnectionError")
  else if String.eqb url "https://example.org/missing" then Ok (mk_response 404 "")
  else Ok (mk_response 200 url).

Definition leaf (text : string) (href : option string) : Tag :=
  MkTag text href (λ _, Ok None).

(** An event card: title, date and link where the selectors below look
    for them; the selector ["::"] is rejected. *)
Definition card (title date : string) (link : option string) : Tag :=
  MkTag (title +:+ " " +:+ date) None
    (λ selector,
       if String.eqb selector ".title" then Ok (Some (leaf title None))
       else if String.eqb selector ".date" then
         if Py.truthy date then Ok (Some (leaf date None)) else Ok None
       else if String.eqb selector "a" then Ok (Some (leaf "more" link))
       else if String.eqb selector "::" then Raise (Exception "SelectorSyntaxError")
       else Ok None).

Definition jazz : Tag := card "Jazz Night" "March 15, 2024 10:00" (Some "/events/1").
Definition undated : Tag := card "Open Mic" "" (Some "events/2").
Definition untitled : Tag := card "" "March 15, 2024 10:00" (Some "/events/3").

Definition soup_select (content selector : string) : result (list Tag) :=
  if String.eqb selector ".event" then Ok [jazz; undated; untitled]
  else Raise (Exception "SelectorSyntaxError").

Definition site : GenericHTMLSource :=
  mk_html_source "https://example.org/cal/"
    (mk_selectors None (Some ".title") (Some ".date") None None (Some "a")).

(** The same site read with a title selector the library rejects. *)
Definition bad_site : GenericHTMLSource :=
  mk_html_source "https://example.org/cal/"
    (mk_selectors None (Some "::") (Some ".date") None None (Some "a")).

(** A page with three JSON-LD blocks: one that does not decode, one
    array with an entry that is no object, and one event object without
    a [name]. *)
Definition soup_ld_json (content : string) : result (list (option string)) :=
  Ok [Some "broken"; Some "array"; Some "event"].

Definition nameless : LdObject :=
  mk_ld (Some "Event") None (Some "2024-03-15T10:00:00") None None None None.

Definition json_loads (s : string) : result LdData :=
  if String.eqb s "event" then Ok (DataDict nameless)
  else if String.eqb s "array" then Ok (DataList [ItemDict nameless; ItemOther])
  else Raise (Exception "JSONDecodeError").

Definition markup : SchemaOrgSource := mk_schema_source "https://example.org/ld".

(** The record [markup] yields for [nameless]. *)
Definition nameless_event : Event :=
  mk_event (Some "") (Some mar15) None (Some "") (Some "") (Some "").

Definition jazz_event : Event :=
  mk_event (Some "Jazz Night") (Some mar15) None (Some "") (Some "")
           (Some "https://example.org/events/1").

(** A record whose date was given with an offset. *)
Definition webinar_event : Event :=
  mk_event (Some "Webinar") (Some mar15_cet) None (Some "Online") (Some "") (Some "").

(** The same instant, given in UTC. *)
Definition broadcast_event : Event :=
  mk_event (Some "Broadcast") (Some mar15_utc) None (Some "Online") (Some "") (Some "").

(** A record whose date did not parse. *)
Definition unscheduled : Event :=
  mk_event (Some "Open Mic") None None (Some "12 High St, Leeds") (Some "") (Some "").

Definition plain_config : Config := mk_config None None None.

Definition all_outputs : Config :=
  mk_config None None (Some (mk_outputs None true true)).

End Sample.


(** ** Vocabulary of the statements *)

Module Spec.

(** The verdict of the two-phase rule of a term section on a text:
    no exclude term occurs in it, and an include term does or there is
    none. *)
Definition passes_terms (section : option TermSection) (text : string) : bool :=
  let s := default no_terms section in
  negb (EventFilter.any_term_in (default [] (exclude s)) text)
  && (negb (EventFilter.nonempty (default [] (include s)))
      || EventFilter.any_term_in (default [] (include s)) text).

(** The text the location stage matches against. *)
Definition location_text (event : Event) : string :=
  Py.lower (default "" (location event)).

(** The text the keyword stage matches against. *)
Definition keyword_text (event : Event) : string :=
  Py.lower (default "" (title event) +:+ " " +:+ default "" (description event)).

Inductive term_stage := LocationStage | KeywordStage.

Definition stage_section (st : term_stage) (config : FilterConfig)
    : TermSection :=
  default no_terms
    (match st with LocationStage => locations config | KeywordStage => keywords config end).

Definition stage_text (st : term_stage) : Event → string :=
  match st with LocationStage => location_text | KeywordStage => keyword_text end.

Definition run_stage (st : term_stage) : FilterConfig → list Event → list Event :=
  match st with
  | LocationStage => EventFilter._filter_by_location
  | KeywordStage => EventFilter._filter_by_keywords
  end.

(** A term occurs in a text, case-insensitively. *)
Definition occurs_in (term text : string) : Prop :=
  Py.contains (Py.lower term) text = true.

(** The bounds the date-range stage works with. *)
Definition lower_bound (parse : string → option datetime)
    (config : FilterConfig) : option datetime :=
  EventFilter.parse_bound parse
    (start_date (default no_date_range (date_range config))).

Definition upper_bound (parse : string → option datetime)
    (config : FilterConfig) : option datetime :=
  EventFilter.parse_bound parse
    (end_date (default no_date_range (date_range config))).



(** [bound and d < bound], [bound and d > bound] *)
Definition before (d : datetime) (bound : option datetime) : result bool :=
  match bound with Some b => dt_lt d b | None => Ok false end.

Definition after (d : datetime) (bound : option datetime) : result bool :=
  match bound with Some b => dt_gt d b | None => Ok false end.

(** The verdict of the date-range stage on one record: kept, dropped,
    or the exception of the comparison that raises.  The upper bound is
    looked at only when the lower one did not drop the record. *)
Definition in_range (lo hi : option datetime) (event : Event) : result bool :=
  match start event with
  | None => Ok false
  | Some d =>
      match before d lo with
      | Raise e => Raise e
      | Ok true => Ok false
      | Ok false =>
          match after d hi with
          | Raise e => Raise e
          | Ok b => Ok (negb b)
          end
      end
  end.

(** The records a verdict keeps, in order; the exception of the first
    record on which the verdict raises. *)
Fixpoint select (verdict : Event → result bool) (events : list Event)
    : result (list Event) :=
  match events with
  | [] => Ok []
  | event :: rest =>
      match verdict event with
      | Raise e => Raise e
      | Ok keep =>
          match select verdict rest with
          | Raise e => Raise e
          | Ok out => Ok (if keep then event :: out else out)
          end
      end
  end.

(** The verdict came out, and in favour of the record. *)
Definition holds (r : result bool) : bool :=
  match r with Ok b => b | Raise _ => false end.

(** The call returns. *)
Definition returns {A} (r : result A) : Prop :=
  match r with Ok _ => True | Raise _ => False end.

(** A naive value has no offset, an aware one has. *)
Definition aware (d : datetime) : bool :=
  match utcoffset d with Some _ => true | None => false end.

(** The start of the record, if it has one, is naive exactly when the
    bound is. *)
Definition agrees (bound : datetime) (event : Event) : Prop :=
  ∀ d, start event = Some d → aware d = aware bound.


(** A stage that runs only when its section is enabled. *)
Definition when (on : bool) (stage : list Event → list Event)
    : list Event → list Event :=
  if on then stage else id.

(** The same for a stage that may raise. *)
Definition when_raising (on : bool) (stage : list Event → result (list Event))
    : list Event → result (list Event) :=
  if on then stage else Ok.

(** Two results put end to end; the exception of the first that has
    one. *)
Definition app_results (r1 r2 : result (list Event)) : result (list Event) :=
  match r1, r2 with
  | Ok l1, Ok l2 => Ok (l1 ++ l2)
  | Raise e, _ => Raise e
  | Ok _, Raise e => Raise e
  end.

Definition locations_on (config : FilterConfig) : bool :=
  enabled (default no_terms (locations config)).
Definition keywords_on (config : FilterConfig) : bool :=
  enabled (default no_terms (keywords config)).
Definition date_range_on (config : FilterConfig) : bool :=
  dr_enabled (default no_date_range (date_range config)).

(** The key under which [get_location_groups] files a record. *)
Definition location_key (event : Event) : string :=
  EventFilter._normalize_location (default "Unknown" (location event)).

(** The grouping key as the specification words it: trim; with a comma,
    split, trim the segments and take the last non-empty one; without,
    the trimmed string; ["Unknown"] for an empty location.  (Where no
    segment is non-empty the trimmed string is kept.) *)
Definition spec_location_key (location : string) : string :=
  if negb (Py.truthy location) then "Unknown"
  else
    let trimmed := Py.strip location in
    if Py.contains "," trimmed then
      let segments := map Py.strip (Py.split "," trimmed) in
      default trimmed (last (List.filter Py.truthy segments))
    else trimmed.

(** What a loop body adds to [events] when run on its own. *)
Definition yield (body : M unit) : list Event :=
  events (snd (body (mk_frame [] []))).

(** The page load both sources start with: the request, the status
    check, and the selection of the elements to walk. *)
Definition load {A} (requests_get : string → result Response)
    (select : string → result (list A)) (url : string) : result (list A) :=
  match requests_get url with
  | Raise e => Raise e
  | Ok response =>
      match raise_for_status response with
      | Raise e => Raise e
      | Ok _ => select (content response)
      end
  end.

Definition is_html (source : EventSource) : bool :=
  match source with HTML _ => true | Schema _ => false end.

(** A link that names its scheme and host. *)
Definition is_absolute (link : string) : bool := Py.contains "://" link.

(** Grouping by a key that may be missing: the shape of both grouping
    loops. *)
Definition group_by (key : Event → option string) (events : list Event)
    : dict (list Event) :=
  foldl (λ groups event,
    match key event with
    | Some k => group_append k event groups
    | None => groups
    end) [] events.

(** The key under which [_group_by_month] files a record, if any. *)
Definition month_key (event : Event) : option string :=
  strftime_Y_m <$> start event.

(** A loop body's effect on a frame it does not inspect: whether or not
    it raises, it appends [added] to the records and may print. *)
Definition extends (body : M unit) (added : list Event) : Prop :=
  ∀ s, ∃ r out,
    body s = (r, mk_frame (events s ++ added) (stdout s ++ out)).

(** The same for a body that never raises. *)
Definition settles (body : M unit) (added : list Event) : Prop :=
  ∀ s, ∃ out,
    body s = (Ok tt, mk_frame (events s ++ added) (stdout s ++ out)).

(** A record with a title to show. *)
Definition titled (event : Event) : Prop :=
  ∃ t, title event = Some t ∧ t ≠ "".

End Spec.

(** ** Configuration file, source creation and [main] *)

(** One entry of the [sources] list of the configuration. *)
Record SourceConfig := mk_source_config {
  sc_enabled : option bool;
  sc_type : option string;
  sc_url : option string;
  sc_selectors : option Selectors
}.

(** The configuration dictionary as a whole: the keys the aggregator
    reads, and the [sources] list. *)
Record ConfigFile := mk_config_file {
  settings : Config;
  cf_sources : option (list SourceConfig)
}.

(** [{}] read as a selector dictionary. *)
Definition no_selectors : Selectors := mk_selectors None None None None None None.

(** What opening and decoding the configuration file comes to: the file
    is not there, the attempt fails otherwise (unreadable file, text that
    is no JSON), or a dictionary is read. *)
Inductive config_read :=
| NotFound
| Failed (e : exn)
| Loaded (config : ConfigFile).

Module Setup.

Definition default_config : ConfigFile :=
  mk_config_file
    (mk_config (Some "My Events") (Some no_filters)
               (Some (mk_outputs (Some "events.ics") false false)))
    (Some []).

(** [load_config]: only [FileNotFoundError] is caught. *)
Definition load_config (file : config_read) : result ConfigFile :=
  match file with
  | NotFound => Ok default_config
  | Failed e => Raise e
  | Loaded config => Ok config
  end.

(** [create_sources_from_config]; the two constructors only store their
    arguments, so the [try] around them never reaches its handler. *)
Definition create_sources_from_config (config : ConfigFile) : list EventSource :=
  foldl (λ sources source_config,
    if negb (default true (sc_enabled source_config)) then sources
    else
      let source_type := default "schema" (sc_type source_config) in
      let url := sc_url source_config in
      if negb (Py.truthy_opt url) then sources
      else if String.eqb source_type "html" then
        let selectors := default no_selectors (sc_selectors source_config) in
        sources ++ [HTML (mk_html_source (default "" url) selectors)]
      else if String.eqb source_type "schema" then
        sources ++ [Schema (mk_schema_source (default "" url))]
      else sources) [] (default [] (cf_sources config)).

Section Main.

Variable requests_get : string → result Response.
Variable soup_select : string → string → result (list Tag).
Variable soup_ld_json : string → result (list (option string)).
Variable json_loads : string → result LdData.
Variable parse : string → option datetime.
Variable parse_fuzzy : string → option datetime.
Variable urljoin : string → string → string.
Variable hash : string → Z.
Variable now : nat → datetime.
Variable write_file : nat → string → Calendar → result unit.

(** [main], given what reading [config.json] comes to: how the call
    ends, and the files written (none when no source is configured). *)
Definition main (file : config_read) : result unit * list (string * Calendar) :=
  match load_config file with
  | Raise e => (Raise e, [])
  | Ok config =>
      let sources := create_sources_from_config config in
      if negb (EventFilter.nonempty sources) then (Ok tt, [])
      else Aggregator.generate_calendars requests_get soup_select soup_ld_json
             json_loads parse parse_fuzzy urljoin hash now write_file
             sources (settings config)
  end.

End Main.
End Setup.

(** ** Further vocabulary *)

Module View.

(** The verdict of the enabled term stages on one record. *)
Definition passes (config : FilterConfig) (event : Event) : bool :=
  (negb (Spec.locations_on config)
   || Spec.passes_terms (locations config) (Spec.location_text event))
  && (negb (Spec.keywords_on config)
      || Spec.passes_terms (keywords config) (Spec.keyword_text event)).

(** The verdict of all enabled stages on one record; a record the term
    stages drop never reaches a date comparison. *)
Definition keeps (parse : string → option datetime) (config : FilterConfig)
    (event : Event) : result bool :=
  if passes config event then
    if Spec.date_range_on config
    then Spec.in_range (Spec.lower_bound parse config)
                       (Spec.upper_bound parse config) event
    else Ok true
  else Ok false.

(** The records a call of [fetch_events] hands to its caller. *)
Definition fetched (run : result (list Event) * list diagnostic) : list Event :=
  match fst run with Ok events => events | Raise _ => [] end.

(** A term section with every term replaced by its lower-case form. *)
Definition lower_terms (section : TermSection) : TermSection :=
  mk_terms (enabled section)
           (map Py.lower <$> include section)
           (map Py.lower <$> exclude section).

Definition lower_config (config : FilterConfig) : FilterConfig :=
  mk_filter_config (lower_terms <$> locations config)
                   (lower_terms <$> keywords config)
                   (date_range config).

(** The characters of a string. *)
Definition chars (s : string) : list ascii := list_ascii_of_string s.

(** A character that [safe_location] lets through: a word character,
    a hyphen, or white space other than the space itself. *)
Definition safe_char (c : ascii) : bool :=
  Aggregator.is_word c || Ascii.eqb c "-"
  || (Py.isspace c && negb (Ascii.eqb c " ")).


(** The records of a list that have a start, each with it. *)
Definition scheduled (events : list Event) : list (Event * datetime) :=
  omap (λ event, pair event <$> start event) events.

(** The date-range part of a configuration with the given two entries. *)
Definition with_dates (lo hi : string) : FilterConfig :=
  mk_filter_config None None (Some (mk_date_range true (Some lo) (Some hi))).

(** The address a source fetches. *)
Definition source_url (source : EventSource) : string :=
  match source with
  | HTML self => html_url self
  | Schema self => schema_url self
  end.

(** The page load of a source fails with [e]. *)
Definition load_fails (requests_get : string → result Response)
    (soup_select : string → string → result (list Tag))
    (soup_ld_json : string → result (list (option string)))
    (source : EventSource) (e : exn) : Prop :=
  match source with
  | HTML self =>
      Spec.load requests_get
        (λ c, soup_select c (default ".event" (sel_container (selectors self))))
        (html_url self) = Raise e
  | Schema self => Spec.load requests_get soup_ld_json (schema_url self) = Raise e
  end.

(** The objects among the entries of a decoded array. *)
Definition objects (items : list LdItem) : list LdObject :=
  omap (λ item, match item with ItemDict d => Some d | ItemOther => None end) items.

Definition all_objects (items : list LdItem) : bool :=
  forallb (λ item, match item with ItemDict _ => true | ItemOther => false end) items.

(** An entry of the [sources] list that [create_sources_from_config]
    turns into a source: not switched off, with an address, of a known
    type. *)
Definition usable (entry : SourceConfig) : bool :=
  default true (sc_enabled entry)
  && Py.truthy_opt (sc_url entry)
  && (String.eqb (default "schema" (sc_type entry)) "html"
      || String.eqb (default "schema" (sc_type entry)) "schema").

(** The source made from a usable entry. *)
Definition source_of (entry : SourceConfig) : EventSource :=
  if String.eqb (default "schema" (sc_type entry)) "html"
  then HTML (mk_html_source (default "" (sc_url entry))
                            (default no_selectors (sc_selectors entry)))
  else Schema (mk_schema_source (default "" (sc_url entry))).

End View.

(** * Properties *)

(** ** Lists built by appending in a loop *)

Lemma foldl_keep {A} (keep : A → bool) (f : list A → A → list A) :
  (∀ acc x, f acc x = if keep x then acc ++ [x] else acc) →
  ∀ l acc, foldl f acc l = acc ++ filter (λ x, keep x) l.
Proof.
  intros Hf l. induction l as [|x l IH]; intros acc; simpl.
  - by rewrite app_nil_r.
  - rewrite IH, Hf, filter_cons. destruct (keep x); simpl.
    + by rewrite <- app_assoc.
    + done.
Qed.

(** ** Loops that may raise *)

Lemma foldl_raise {A B} (f : result A → B → result A) e l :
  (∀ e x, f (Raise e) x = Raise e) → foldl f (Raise e) l = Raise e.
Proof. intros Hf. induction l as [|x l IH]; simpl; [done|]. by rewrite Hf. Qed.

Lemma foldl_select (verdict : Event → result bool)
    (f : result (list Event) → Event → result (list Event)) :
  (∀ e x, f (Raise e) x = Raise e) →
  (∀ acc x, f (Ok acc) x
            = match verdict x with
              | Raise e => Raise e
              | Ok keep => Ok (if keep then acc ++ [x] else acc)
              end) →
  ∀ events acc,
    foldl f (Ok acc) events
    = match Spec.select verdict events with
      | Raise e => Raise e
      | Ok out => Ok (acc ++ out)
      end.
Proof.
  intros Hraise Hf events.
  induction events as [|x events IH]; intros acc; simpl.
  - by rewrite app_nil_r.
  - rewrite Hf. destruct (verdict x) as [keep|e].
    + rewrite IH. destruct (Spec.select verdict events) as [out|e]; [|done].
      destruct keep; [|done]. by rewrite <- app_assoc.
    + by apply foldl_raise.
Qed.

Section Selections.
Variable verdict : Event → result bool.
Implicit Types (events out : list Event) (event : Event).

Lemma select_app events1 events2 :
  Spec.select verdict (events1 ++ events2)
  = Spec.app_results (Spec.select verdict events1) (Spec.select verdict events2).
Proof.
  induction events1 as [|x events1 IH]; simpl.
  - by destruct (Spec.select verdict events2).
  - destruct (verdict x) as [keep|e]; [|done]. rewrite IH.
    destruct (Spec.select verdict events1) as [out1|e1]; [|done].
    destruct (Spec.select verdict events2) as [out2|e2]; [|done].
    by destruct keep.
Qed.

(** A selection that returns has kept the records in favour. *)
Lemma select_ok events out :
  Spec.select verdict events = Ok out →
  out = filter (λ e, Spec.holds (verdict e)) events
  ∧ ∀ event, event ∈ events → Spec.returns (verdict event).
Proof.
  revert out. induction events as [|x events IH]; intros out; simpl.
  - intros [= <-]. split; [done|]. by intros event ?%elem_of_nil.
  - destruct (verdict x) as [keep|e] eqn:Hx; [|done].
    destruct (Spec.select verdict events) as [out'|e]; [|done].
    intros [= <-]. destruct (IH out' eq_refl) as [-> Hall]. split.
    + rewrite filter_cons, Hx. simpl. by destruct keep.
    + intros event [->|Hin]%elem_of_cons; [by rewrite Hx | by apply Hall].
Qed.

(** A selection returns when the verdict does on every record. *)
Lemma select_returns events :
  (∀ event, event ∈ events → Spec.returns (verdict event)) →
  Spec.select verdict events = Ok (filter (λ e, Spec.holds (verdict e)) events).
Proof.
  induction events as [|x events IH]; intros Hall; simpl; [done|].
  assert (Spec.returns (verdict x)) as Hx by apply Hall, list_elem_of_here.
  rewrite filter_cons. destruct (verdict x) as [keep|e]; [|done].
  rewrite IH by (intros event Hin; by apply Hall, list_elem_of_further).
  by destruct keep.
Qed.

(** A selection that raises does so with the exception of the first
    record whose verdict raises. *)
Lemma select_raise events e :
  Spec.select verdict events = Raise e →
  ∃ before event after,
    events = before ++ event :: after
    ∧ verdict event = Raise e
    ∧ ∀ event', event' ∈ before → Spec.returns (verdict event').
Proof.
  induction events as [|x events IH]; simpl; [done|].
  destruct (verdict x) as [keep|e'] eqn:Hx.
  - destruct (Spec.select verdict events) as [out|e'']; [done|].
    intros [= ->]. destruct (IH eq_refl) as (before & event & after & -> & He & Hb).
    exists (x :: before), event, after. repeat split; [done|].
    intros event' [->|Hin]%elem_of_cons; [by rewrite Hx | by apply Hb].
  - intros [= ->]. exists [], x, events. repeat split; [done|].
    by intros event' ?%elem_of_nil.
Qed.

Lemma select_raises events event e :
  event ∈ events → verdict event = Raise e →
  ¬ Spec.returns (Spec.select verdict events).
Proof.
  intros Hin He Hret.
  destruct (Spec.select verdict events) as [out|] eqn:Hsel; [|done].
  destruct (select_ok _ _ Hsel) as [_ Hall].
  specialize (Hall event Hin). by rewrite He in Hall.
Qed.

(** Selecting from the records a test keeps. *)
Lemma select_filter (keep : Event → bool) events :
  Spec.select verdict (filter (λ e, keep e) events)
  = Spec.select (λ e, if keep e then verdict e else Ok false) events.
Proof.
  induction events as [|x events IH]; simpl; [done|].
  rewrite filter_cons. destruct (keep x); simpl.
  - by rewrite IH.
  - rewrite IH. by destruct (Spec.select _ events).
Qed.

End Selections.

Lemma select_ext (v1 v2 : Event → result bool) events :
  (∀ event, event ∈ events → v1 event = v2 event) →
  Spec.select v1 events = Spec.select v2 events.
Proof.
  induction events as [|x events IH]; intros Hext; simpl; [done|].
  rewrite (Hext x) by apply list_elem_of_here.
  rewrite IH by (intros event Hin; by apply Hext, list_elem_of_further).
  done.
Qed.

Lemma select_total (keep : Event → bool) events :
  Spec.select (λ e, Ok (keep e)) events = Ok (filter (λ e, keep e) events).
Proof.
  induction events as [|x events IH]; simpl; [done|].
  rewrite IH, filter_cons. by destruct (keep x).
Qed.

(** ** Timestamps *)

Lemma fields_compare_refl d : fields_compare d d = Eq.
Proof. unfold fields_compare. by rewrite !Z.compare_refl. Qed.




(** A comparison returns exactly when both values are naive or both
    aware; otherwise it raises [TypeError]. *)
Lemma dt_compare_cases a b :
  (Spec.aware a = Spec.aware b ∧ Spec.returns (dt_compare a b))
  ∨ (Spec.aware a ≠ Spec.aware b ∧ dt_compare a b = Raise (Exception "TypeError")).
Proof.
  unfold dt_compare, Spec.aware.
  destruct (utcoffset a) as [oa|], (utcoffset b) as [ob|];
    case_bool_decide; simpl; try (left; done); try (right; done); congruence.
Qed.

Lemma dt_lt_cases a b :
  (Spec.aware a = Spec.aware b ∧ Spec.returns (dt_lt a b))
  ∨ (Spec.aware a ≠ Spec.aware b ∧ dt_lt a b = Raise (Exception "TypeError")).
Proof.
  unfold dt_lt. destruct (dt_compare_cases a b) as [[? Hr]|[? ->]]; [left|right; done].
  split; [done|]. by destruct (dt_compare a b) as [[]|].
Qed.

Lemma dt_gt_cases a b :
  (Spec.aware a = Spec.aware b ∧ Spec.returns (dt_gt a b))
  ∨ (Spec.aware a ≠ Spec.aware b ∧ dt_gt a b = Raise (Exception "TypeError")).
Proof.
  unfold dt_gt. destruct (dt_compare_cases a b) as [[? Hr]|[? ->]]; [left|right; done].
  split; [done|]. by destruct (dt_compare a b) as [[]|].
Qed.

(** The verdict of the date-range stage returns on a record whose start
    can be compared with the bounds. *)
Lemma in_range_returns lo hi event :
  (∀ bound, lo = Some bound ∨ hi = Some bound → Spec.agrees bound event) →
  Spec.returns (Spec.in_range lo hi event).
Proof.
  intros Hagree. unfold Spec.in_range.
  destruct (start event) as [d|] eqn:Hs; [|done].
  assert (Spec.returns (Spec.before d lo)) as Hlo.
  { destruct lo as [b|]; [|done]. simpl.
    destruct (dt_lt_cases d b) as [[_ ?]|[Hne _]]; [done|].
    destruct Hne. apply (Hagree b); [by left | done]. }
  assert (Spec.returns (Spec.after d hi)) as Hhi.
  { destruct hi as [b|]; [|done]. simpl.
    destruct (dt_gt_cases d b) as [[_ ?]|[Hne _]]; [done|].
    destruct Hne. apply (Hagree b); [by right | done]. }
  destruct (Spec.before d lo) as [[]|]; [done| |done].
  by destruct (Spec.after d hi).
Qed.

(** Whatever the verdict raises is a [TypeError]. *)
Lemma in_range_raise lo hi event e :
  Spec.in_range lo hi event = Raise e → e = Exception "TypeError".
Proof.
  unfold Spec.in_range. destruct (start event) as [d|]; [|done].
  assert (∀ r, Spec.before d lo = Raise r → r = Exception "TypeError") as Hlo.
  { destruct lo as [b|]; [|done]. simpl.
    destruct (dt_lt_cases d b) as [[_ Hr]|[_ ->]]; [|by intros r [= <-]].
    intros r Hb. by rewrite Hb in Hr. }
  assert (∀ r, Spec.after d hi = Raise r → r = Exception "TypeError") as Hhi.
  { destruct hi as [b|]; [|done]. simpl.
    destruct (dt_gt_cases d b) as [[_ Hr]|[_ ->]]; [|by intros r [= <-]].
    intros r Hb. by rewrite Hb in Hr. }
  destruct (Spec.before d lo) as [[]|r]; [done| |].
  - destruct (Spec.after d hi) as [?|r]; [done|]. intros [= <-]. by apply Hhi.
  - intros [= <-]. by apply Hlo.
Qed.

(** ** The filter stages as selections *)

Section FilterFacts.
Variable parse : string → option datetime.
Implicit Types (config : FilterConfig) (events : list Event) (event : Event).

Lemma filter_by_location_select config events :
  EventFilter._filter_by_location config events
  = filter (λ e, Spec.passes_terms (locations config) (Spec.location_text e)) events.
Proof.
  unfold EventFilter._filter_by_location.
  rewrite (foldl_keep (λ e, Spec.passes_terms (locations config) (Spec.location_text e))).
  - done.
  - intros acc e. unfold Spec.passes_terms, Spec.location_text.
    destruct (EventFilter.any_term_in _ _); simpl; [done|].
    destruct (EventFilter.nonempty _); simpl; [|done].
    by destruct (EventFilter.any_term_in _ _).
Qed.

Lemma filter_by_keywords_select config events :
  EventFilter._filter_by_keywords config events
  = filter (λ e, Spec.passes_terms (keywords config) (Spec.keyword_text e)) events.
Proof.
  unfold EventFilter._filter_by_keywords.
  rewrite (foldl_keep (λ e, Spec.passes_terms (keywords config) (Spec.keyword_text e))).
  - done.
  - intros acc e. unfold Spec.passes_terms, Spec.keyword_text.
    destruct (EventFilter.any_term_in _ _); simpl; [done|].
    destruct (EventFilter.nonempty _); simpl; [|done].
    by destruct (EventFilter.any_term_in _ _).
Qed.

Lemma filter_by_date_range_select config events :
  EventFilter._filter_by_date_range parse config events
  = Spec.select (Spec.in_range (Spec.lower_bound parse config)
                               (Spec.upper_bound parse config)) events.
Proof.
  unfold EventFilter._filter_by_date_range.
  rewrite (foldl_select (Spec.in_range (Spec.lower_bound parse config)
                                       (Spec.upper_bound parse config))).
  - by destruct (Spec.select _ events).
  - done.
  - intros acc e. unfold Spec.in_range, Spec.before, Spec.after,
      Spec.lower_bound, Spec.upper_bound.
    destruct (start e) as [d|]; [|done].
    destruct (match EventFilter.parse_bound parse (start_date _) with
              | Some b => dt_lt d b | None => Ok false end) as [[]|]; [done| |done].
    by destruct (match EventFilter.parse_bound parse (end_date _) with
                 | Some b => dt_gt d b | None => Ok false end) as [[]|].
Qed.

Lemma run_stage_select st config events :
  Spec.run_stage st config events
  = filter (λ e, Spec.passes_terms (Some (Spec.stage_section st config))
                                   (Spec.stage_text st e)) events.
Proof.
  destruct st; simpl.
  - rewrite filter_by_location_select. unfold Spec.stage_section.
    by destruct (locations config).
  - rewrite filter_by_keywords_select. unfold Spec.stage_section.
    by destruct (keywords config).
Qed.

End FilterFacts.

(** ** filter_events *)

Lemma any_term_in_intro terms term text :
  term ∈ terms → Spec.occurs_in term text →
  EventFilter.any_term_in terms text = true.
Proof.
  intros Hin Hocc. unfold EventFilter.any_term_in.
  apply existsb_exists. exists term. split; [by apply list_elem_of_In | exact Hocc].
Qed.

Lemma when_filter on (keep : Event → bool) stage events :
  (∀ l, stage l = filter (λ e, keep e) l) →
  Spec.when on stage events = filter (λ e, negb on || keep e) events.
Proof.
  intros Hstage. destruct on; simpl.
  - apply Hstage.
  - induction events as [|e events IH]; [done|].
    rewrite filter_cons. simpl. by rewrite <- IH.
Qed.

Lemma filter_events_when parse config events :
  EventFilter.filter_events parse config events
  = Spec.when_raising (Spec.date_range_on config)
      (EventFilter._filter_by_date_range parse config)
      (Spec.when (Spec.keywords_on config)
         (EventFilter._filter_by_keywords config)
         (Spec.when (Spec.locations_on config)
            (EventFilter._filter_by_location config) events)).
Proof.
  unfold EventFilter.filter_events, Spec.when, Spec.when_raising,
    Spec.date_range_on, Spec.keywords_on, Spec.locations_on.
  destruct (enabled (default no_terms (locations config)));
    destruct (enabled (default no_terms (keywords config)));
    destruct (dr_enabled (default no_date_range (date_range config))); done.
Qed.

(** The two term stages together keep the records that pass both. *)
Lemma term_stages_passes config events :
  Spec.when (Spec.keywords_on config) (EventFilter._filter_by_keywords config)
    (Spec.when (Spec.locations_on config)
       (EventFilter._filter_by_location config) events)
  = filter (λ e, View.passes config e) events.
Proof.
  rewrite (when_filter _ (λ e, Spec.passes_terms (keywords config) (Spec.keyword_text e)))
    by apply filter_by_keywords_select.
  rewrite (when_filter _ (λ e, Spec.passes_terms (locations config) (Spec.location_text e)))
    by apply filter_by_location_select.
  rewrite list_filter_filter. apply list_filter_iff. intros e.
  unfold View.passes. rewrite andb_True. tauto.
Qed.

(** The filter engine is one selection, by the verdict of the enabled
    stages. *)
Lemma filter_events_select parse config events :
  EventFilter.filter_events parse config events
  = Spec.select (View.keeps parse config) events.
Proof.
  rewrite filter_events_when, term_stages_passes.
  unfold Spec.when_raising, View.keeps.
  destruct (Spec.date_range_on config).
  - by rewrite filter_by_date_range_select, select_filter.
  - rewrite <- select_total. apply select_ext. intros e _.
    by destruct (View.passes config e).
Qed.

Lemma filter_events_ok_sublist parse config events out :
  EventFilter.filter_events parse config events = Ok out →
  out `sublist_of` events.
Proof.
  rewrite filter_events_select. intros [-> _]%select_ok. apply sublist_filter.
Qed.





(** C7. [filter_events] runs the enabled stages in the order location,
    keyword, date range, each on the output of the one before, and ends
    as the date-range stage does; with all three sections disabled it
    returns its input. *)
Theorem filter_events_stage_order parse config events :
  EventFilter.filter_events parse config events
  = Spec.when_raising (Spec.date_range_on config)
      (EventFilter._filter_by_date_range parse config)
      (Spec.when (Spec.keywords_on config)
         (EventFilter._filter_by_keywords config)
         (Spec.when (Spec.locations_on config)
            (EventFilter._filter_by_location config) events))
  ∧ (Spec.locations_on config = false →
     Spec.keywords_on config = false →
     Spec.date_range_on config = false →
     EventFilter.filter_events parse config events = Ok events).
Proof.
  split; [apply filter_events_when|].
  intros Hl Hk Hd. rewrite filter_events_when, Hl, Hk, Hd. done.
Qed.

(** At a configuration without any section and at one whose sections are
    all present and switched off. *)
Lemma filter_events_stage_order_witness :
  EventFilter.filter_events Sample.parse no_filters [Sample.jazz_event; Sample.unscheduled]
  = Ok [Sample.jazz_event; Sample.unscheduled]
  ∧ EventFilter.filter_events Sample.parse
      (mk_filter_config (Some (mk_terms false None (Some ["jazz"])))
                        (Some (mk_terms false (Some ["mic"]) None))
                        (Some (mk_date_range false (Some "2024-12-31") None)))
      [Sample.jazz_event; Sample.unscheduled]
    = Ok [Sample.jazz_event; Sample.unscheduled].
Proof.
  split.
  - apply (filter_events_stage_order Sample.parse no_filters); reflexivity.
  - apply filter_events_stage_order; reflexivity.
Defined.

(** C8. Within an enabled location or keyword stage, a record whose
    matched text contains an exclude term and an include term (compared
    case-insensitively by containment) is dropped. *)
Theorem exclude_wins st config events event ex inc :
  ex ∈ default [] (exclude (Spec.stage_section st config)) →
  inc ∈ default [] (include (Spec.stage_section st config)) →
  Spec.occurs_in ex (Spec.stage_text st event) →
  Spec.occurs_in inc (Spec.stage_text st event) →
  event ∉ Spec.run_stage st config events.
Proof.
  intros Hex _ Hocc _. rewrite run_stage_select.
  intros [Hpass _]%list_elem_of_filter.
  unfold Spec.passes_terms in Hpass. simpl in Hpass.
  rewrite (any_term_in_intro _ ex) in Hpass by done. exact Hpass.
Qed.

Lemma exclude_wins_witness :
  Sample.jazz_event
  ∉ EventFilter._filter_by_keywords
      (mk_filter_config None (Some (mk_terms true (Some ["JAZZ"]) (Some ["Night"]))) None)
      [Sample.jazz_event].
Proof.
  apply (exclude_wins Spec.KeywordStage _ _ _ "Night" "JAZZ").
  - simpl. apply list_elem_of_here.
  - simpl. apply list_elem_of_here.
  - reflexivity.
  - reflexivity.
Defined.



(** What the verdict of the date-range stage in favour of a record
    comes to. *)
Lemma in_range_holds lo hi event :
  Spec.holds (Spec.in_range lo hi event)
  ↔ ∃ d, start event = Some d
         ∧ Spec.before d lo = Ok false ∧ Spec.after d hi = Ok false.
Proof.
  unfold Spec.in_range. split.
  - destruct (start event) as [d|]; [|done]. intros Hh. exists d.
    destruct (Spec.before d lo) as [[]|]; [done| |done].
    by destruct (Spec.after d hi) as [[]|].
  - by intros (d & -> & -> & ->).
Qed.




(** ** Insertion-ordered dictionaries and grouping *)

Section DictFacts.
Context {V : Type}.
Implicit Types (d : dict V) (k : string).

Lemma dict_get_add k k' (v : V) d :
  dict_get k (dict_add k' v d)
  = match dict_get k d with
    | Some x => Some x
    | None => if String.eqb k k' then Some v else None
    end.
Proof.
  unfold dict_add. induction d as [|[k0 v0] d IH]; simpl; [done|].
  by destruct (String.eqb k k0).
Qed.

Lemma dict_get_update k k' (f : V → V) d :
  dict_get k (dict_update k' f d)
  = if String.eqb k k' then f <$> dict_get k d else dict_get k d.
Proof.
  induction d as [|[k0 v0] d IH]; simpl.
  - by destruct (String.eqb k k').
  - destruct (String.eqb_spec k' k0) as [->|Hne]; simpl.
    + destruct (String.eqb_spec k k0) as [->|Hne']; simpl; done.
    + rewrite IH. destruct (String.eqb_spec k k0) as [->|Hne']; simpl; [|done].
      destruct (String.eqb_spec k0 k'); [congruence|done].
Qed.

Lemma elem_of_dict_update k k' (f : V → V) (v : V) d :
  (k, v) ∈ dict_update k' f d →
  (k, v) ∈ d ∨ (k = k' ∧ ∃ v0, (k', v0) ∈ d ∧ v = f v0).
Proof.
  induction d as [|[k0 v0] d IH]; simpl; [by left|].
  destruct (String.eqb_spec k' k0) as [->|Hne].
  - intros [Heq|Hin]%elem_of_cons.
    + injection Heq as -> ->. right. split; [done|]. exists v0.
      split; [apply list_elem_of_here | done].
    + left. by apply list_elem_of_further.
  - intros [Heq|Hin]%elem_of_cons.
    + left. rewrite Heq. apply list_elem_of_here.
    + destruct (IH Hin) as [H|(-> & v1 & H1 & ->)].
      * left. by apply list_elem_of_further.
      * right. split; [done|]. exists v1. split; [by apply list_elem_of_further | done].
Qed.

End DictFacts.

Lemma dict_get_group_append k key event groups :
  dict_get k (group_append key event groups)
  = if String.eqb k key then Some (default [] (dict_get k groups) ++ [event])
    else dict_get k groups.
Proof.
  unfold group_append, dict_mem. rewrite dict_get_update.
  destruct (String.eqb_spec k key) as [->|Hne].
  - destruct (dict_get key groups) as [b|] eqn:Hg; simpl.
    + by rewrite Hg.
    + rewrite dict_get_add, Hg, String.eqb_refl. done.
  - destruct (dict_get key groups) as [b|] eqn:Hg; [done|].
    rewrite dict_get_add. destruct (dict_get k groups); [done|].
    destruct (String.eqb_spec k key); [congruence|done].
Qed.

Lemma elem_of_group_append k bucket key event groups :
  (k, bucket) ∈ group_append key event groups →
  (k, bucket) ∈ groups
  ∨ bucket = []
  ∨ (k = key ∧ ∃ b0, bucket = b0 ++ [event] ∧ ((key, b0) ∈ groups ∨ b0 = [])).
Proof.
  unfold group_append.
  assert (∀ kb, kb ∈ (if dict_mem key groups then groups else dict_add key [] groups) →
                kb ∈ groups ∨ kb = (key, [])) as Hadd.
  { intros kb H. destruct (dict_mem key groups); [by left|].
    unfold dict_add in H. apply elem_of_app in H as [H|H]; [by left|].
    apply list_elem_of_singleton in H. by right. }
  intros [H|(-> & b0 & H & ->)]%elem_of_dict_update.
  - destruct (Hadd _ H) as [H'|H']; [by left|].
    injection H' as -> ->. right. by left.
  - right. right. split; [done|]. exists b0. split; [done|].
    destruct (Hadd _ H) as [H'|H']; [by left|].
    injection H' as ->. by right.
Qed.

Section GroupFacts.
Variable key : Event → option string.

Lemma group_by_snoc events event :
  Spec.group_by key (events ++ [event])
  = match key event with
    | Some k => group_append k event (Spec.group_by key events)
    | None => Spec.group_by key events
    end.
Proof. unfold Spec.group_by. by rewrite foldl_snoc. Qed.

(** The bucket of a key holds the records of that key, in input order;
    a key without records has no bucket. *)
Lemma group_by_get events k :
  dict_get k (Spec.group_by key events)
  = match filter (λ e, key e = Some k) events with
    | [] => None
    | bucket => Some bucket
    end.
Proof.
  induction events as [|event events IH] using rev_ind; [done|].
  rewrite group_by_snoc, filter_app, filter_cons, filter_nil.
  destruct (key event) as [k'|] eqn:Hk.
  - rewrite dict_get_group_append, IH.
    destruct (String.eqb_spec k k') as [->|Hne].
    + rewrite decide_True by done.
      destruct (filter _ events) as [|e0 b]; done.
    + rewrite decide_False by congruence. by rewrite app_nil_r.
  - rewrite decide_False by congruence. by rewrite app_nil_r.
Qed.

(** Every record of a bucket is a record of the input with that key. *)
Lemma group_by_items events k bucket event :
  (k, bucket) ∈ Spec.group_by key events → event ∈ bucket →
  event ∈ events ∧ key event = Some k.
Proof.
  revert k bucket. induction events as [|e events IH] using rev_ind;
    intros k bucket Hitem Hin.
  - by apply elem_of_nil in Hitem.
  - rewrite group_by_snoc in Hitem. rewrite elem_of_app.
    destruct (key e) as [k'|] eqn:Hk.
    + apply elem_of_group_append in Hitem
        as [H|[->|(-> & b0 & -> & Hb0)]].
      * destruct (IH _ _ H Hin). auto.
      * by apply elem_of_nil in Hin.
      * apply elem_of_app in Hin as [Hin|Hin].
        -- destruct Hb0 as [Hb0| ->]; [|by apply elem_of_nil in Hin].
           destruct (IH _ _ Hb0 Hin). auto.
        -- apply list_elem_of_singleton in Hin as ->.
           split; [right; apply list_elem_of_here | done].
    + destruct (IH _ _ Hitem Hin). auto.
Qed.

(** A record with a key sits in the bucket of its key. *)
Lemma group_by_placed events event k :
  event ∈ events → key event = Some k →
  ∃ bucket, dict_get k (Spec.group_by key events) = Some bucket ∧ event ∈ bucket.
Proof.
  intros Hin Hk. rewrite group_by_get.
  assert (event ∈ filter (λ e, key e = Some k) events) as Hf
    by (apply list_elem_of_filter; done).
  destruct (filter _ events) as [|e0 b] eqn:Hb.
  - by apply elem_of_nil in Hf.
  - eauto.
Qed.

End GroupFacts.

Lemma get_location_groups_group_by events :
  EventFilter.get_location_groups events
  = Spec.group_by (λ e, Some (Spec.location_key e)) events.
Proof. reflexivity. Qed.

Lemma group_by_month_group_by events :
  Aggregator._group_by_month events = Spec.group_by Spec.month_key events.
Proof.
  unfold Aggregator._group_by_month, Spec.group_by.
  generalize (@nil (string * list Event)).
  induction events as [|e events IH]; intros acc; simpl; [done|].
  rewrite IH. unfold Spec.month_key. by destruct (start e).
Qed.

(** ** Splitting at commas *)

Lemma contains_comma_cons c s :
  Py.contains "," (String c s) = Ascii.eqb "," c || Py.contains "," s.
Proof.
  cbn [Py.contains String.prefix].
  destruct (ascii_dec "," c) as [<-|Hne].
  - by destruct s.
  - by destruct (Ascii.eqb_spec "," c).
Qed.

Lemma contains_comma_middle pre seg :
  Py.contains "," (pre +:+ "," +:+ seg) = true.
Proof.
  induction pre as [|c pre IH].
  - change ("" +:+ "," +:+ seg) with (String "," seg).
    by rewrite contains_comma_cons.
  - change (String c pre +:+ "," +:+ seg) with (String c (pre +:+ "," +:+ seg)).
    rewrite contains_comma_cons, IH. by destruct (Ascii.eqb "," c).
Qed.

Lemma split_no_comma s :
  Py.contains "," s = false → Py.split "," s = [s].
Proof.
  induction s as [|c s IH]; [done|].
  rewrite contains_comma_cons. intros [Hc Hs]%orb_false_elim.
  simpl. rewrite Ascii.eqb_sym, Hc, (IH Hs). done.
Qed.

Lemma split_last_segment pre seg :
  Py.contains "," seg = false →
  ∃ p ps, Py.split "," (pre +:+ "," +:+ seg) = p :: ps ++ [seg].
Proof.
  intros Hseg. induction pre as [|c pre (p & ps & IH)].
  - exists "", []. change ("" +:+ "," +:+ seg) with (String "," seg).
    simpl. by rewrite (split_no_comma _ Hseg).
  - change (String c pre +:+ "," +:+ seg) with (String c (pre +:+ "," +:+ seg)).
    simpl. rewrite IH. destruct (Ascii.eqb c ",").
    + by exists "", (p :: ps).
    + by exists (String c p), ps.
Qed.

Lemma normalize_location_no_comma s :
  Py.contains "," (Py.strip s) = false →
  EventFilter._normalize_location s = Py.strip s.
Proof. intros H. unfold EventFilter._normalize_location. by rewrite H. Qed.

Lemma normalize_location_last_segment s pre seg :
  Py.strip s = pre +:+ "," +:+ seg → Py.contains "," seg = false →
  EventFilter._normalize_location s = Py.strip seg.
Proof.
  intros Hs Hseg. unfold EventFilter._normalize_location.
  rewrite Hs, contains_comma_middle.
  destruct (split_last_segment pre seg Hseg) as (p & ps & ->).
  change (p :: ps ++ [seg]) with ((p :: ps) ++ [seg]).
  rewrite map_app. change (map Py.strip [seg]) with [Py.strip seg].
  by rewrite last_snoc.
Qed.

(** ** Location grouping *)

(** C2 (amended).  A record whose location is absent or not blank is
    filed by [get_location_groups] under exactly one key: the
    location trimmed and, when the trimmed string has a comma, the
    trimmed text after its last comma (the last segment, empty or not),
    otherwise the trimmed string itself; ["Unknown"] stands in for an
    absent location.  So the key of ["123 Main St, Springfield"] and of
    ["Springfield"] is ["Springfield"]. *)
Theorem location_key_last_segment events event :
  event ∈ events →
  (∀ s, location event = Some s → Py.strip s ≠ "") →
  (∃ bucket,
      dict_get (Spec.location_key event) (EventFilter.get_location_groups events)
      = Some bucket ∧ event ∈ bucket)
  ∧ (∀ k bucket, (k, bucket) ∈ EventFilter.get_location_groups events →
                 event ∈ bucket → k = Spec.location_key event)
  ∧ match location event with
    | None => Spec.location_key event = "Unknown"
    | Some s =>
        (Py.contains "," (Py.strip s) = false →
         Spec.location_key event = Py.strip s)
        ∧ (∀ pre seg, Py.strip s = pre +:+ "," +:+ seg →
                      Py.contains "," seg = false →
                      Spec.location_key event = Py.strip seg)
    end
  ∧ EventFilter._normalize_location "123 Main St, Springfield" = "Springfield"
  ∧ EventFilter._normalize_location "Springfield" = "Springfield".
Proof.
  intros Hin _. rewrite get_location_groups_group_by.
  split; [by apply group_by_placed|].
  split.
  { intros k bucket Hitem Hb.
    destruct (group_by_items _ _ _ _ _ Hitem Hb) as [_ Hk]. congruence. }
  split; [|split; reflexivity].
  unfold Spec.location_key. destruct (location event) as [s|]; simpl.
  - split.
    + apply normalize_location_no_comma.
    + intros pre seg. apply normalize_location_last_segment.
  - reflexivity.
Qed.

Lemma location_key_last_segment_witness :
  Spec.location_key Sample.unscheduled = "Leeds".
Proof.
  pose proof (location_key_last_segment [Sample.unscheduled] Sample.unscheduled) as H.
  simpl in H. destruct H as (_ & _ & (_ & Hseg) & _).
  - apply list_elem_of_here.
  - intros s [= <-]. discriminate.
  - apply (Hseg "12 High St" " Leeds"); reflexivity.
Defined.

(** C2, as stated, fails on a location that ends in a comma: the code
    takes the last segment, which is empty, where the specification
    takes the last non-empty one. *)
Lemma location_key_counterexample :
  Spec.location_key
    (mk_event (Some "Fair") None None (Some "Paris, ") (Some "") (Some "")) = ""
  ∧ Spec.spec_location_key "Paris, " = "Paris".
Proof. split; reflexivity. Qed.

(** The key of a record whose location is the empty string. *)
Example location_key_empty_string :
  Spec.location_key Sample.nameless_event = ""
  ∧ Spec.location_key (mk_event None None None None None None) = "Unknown".
Proof. split; reflexivity. Qed.

(** ** The calendar encoder *)

Lemma property_add_found name value c n' v' :
  property name c = Some value → property name (add n' v' c) = Some value.
Proof.
  unfold add. induction c as [|[n v] c IH]; simpl; [done|].
  destruct (String.eqb name n); [done|exact IH].
Qed.

Lemma summary_of_event_block hash now event d n :
  property "summary" (Generator.event_block hash now event d n)
  = Some (Text (default "Untitled Event" (title event))).
Proof.
  unfold Generator.event_block. cbv zeta.
  repeat match goal with
         | |- property _ (add "summary" _ []) = _ => reflexivity
         | |- property _ (add _ _ _) = _ => apply property_add_found
         | |- context [if ?b then _ else _] => destruct b
         | |- context [match end_ ?e with _ => _ end] => destruct (end_ e)
         end.
Qed.

Section GeneratorFacts.
Variable hash : string → Z.
Variable now : nat → datetime.
Variable self : CalendarGenerator.
Variable name : option string.

Lemma generate_snoc events event :
  cal_events (Generator.generate hash now self (events ++ [event]) name)
  = let blocks := cal_events (Generator.generate hash now self events name) in
    match start event with
    | None => blocks
    | Some d => blocks ++ [Generator.event_block hash now event d (length blocks)]
    end.
Proof. unfold Generator.generate. simpl. by rewrite foldl_snoc. Qed.

(** Every event block is the block of a record of the list that has a
    start. *)
Lemma generate_blocks_from events block :
  block ∈ cal_events (Generator.generate hash now self events name) →
  ∃ event d n, event ∈ events ∧ start event = Some d
               ∧ block = Generator.event_block hash now event d n.
Proof.
  induction events as [|e events IH] using rev_ind.
  - intros H. by apply elem_of_nil in H.
  - rewrite generate_snoc. cbv zeta. destruct (start e) as [d|] eqn:Hs.
    + intros [H|H]%elem_of_app.
      * destruct (IH H) as (ev & d' & n & ? & ? & ?).
        exists ev, d', n. rewrite elem_of_app. auto.
      * apply list_elem_of_singleton in H. eexists e, d, _.
        rewrite elem_of_app, list_elem_of_singleton.
        split; [by right|]. split; [done|exact H].
    + intros H. destruct (IH H) as (ev & d' & n & ? & ? & ?).
      exists ev, d', n. rewrite elem_of_app. auto.
Qed.

(** Every record with a start has its event block in the calendar. *)
Lemma generate_block_of events event d :
  event ∈ events → start event = Some d →
  ∃ n, Generator.event_block hash now event d n
       ∈ cal_events (Generator.generate hash now self events name).
Proof.
  induction events as [|e events IH] using rev_ind.
  - intros H. by apply elem_of_nil in H.
  - intros [H|H]%elem_of_app Hs; rewrite generate_snoc; cbv zeta.
    + destruct (IH H Hs) as [n Hn]. exists n.
      destruct (start e); [rewrite elem_of_app|]; auto.
    + apply list_elem_of_singleton in H as ->. rewrite Hs.
      eexists. rewrite elem_of_app, list_elem_of_singleton. by right.
Qed.

(** A record without a start leaves no trace in the calendar. *)
Lemma generate_skips_unscheduled before event after :
  start event = None →
  Generator.generate hash now self (before ++ event :: after) name
  = Generator.generate hash now self (before ++ after) name.
Proof.
  intros Hs. unfold Generator.generate. f_equal.
  rewrite !foldl_app. simpl. by rewrite Hs.
Qed.

End GeneratorFacts.

(** C3, on the code: a record with a start whose title is the empty
    string gets an event block, and the summary of that block is the
    empty string, not ["Untitled Event"]. *)
Theorem empty_title_summary hash now self name events event d :
  title event = Some "" → start event = Some d → event ∈ events →
  ∃ n, Generator.event_block hash now event d n
       ∈ cal_events (Generator.generate hash now self events name)
       ∧ property "summary" (Generator.event_block hash now event d n)
         = Some (Text "").
Proof.
  intros Ht Hs Hin.
  destruct (generate_block_of hash now self name events event d Hin Hs) as [n Hn].
  exists n. split; [exact Hn|]. by rewrite summary_of_event_block, Ht.
Qed.

Lemma empty_title_summary_witness :
  ∃ n, Generator.event_block Sample.hash Sample.now Sample.nameless_event Sample.mar15 n
       ∈ cal_events (Generator.generate Sample.hash Sample.now (mk_generator "My Events")
                       [Sample.nameless_event] None)
       ∧ property "summary"
           (Generator.event_block Sample.hash Sample.now Sample.nameless_event Sample.mar15 n)
         = Some (Text "").
Proof.
  apply empty_title_summary.
  - reflexivity.
  - reflexivity.
  - apply list_elem_of_here.
Defined.

(** ** Records without a start *)

(** C6. A record whose start is absent is left out of calendar encoding
    (the calendar is the one built without it) and of month grouping
    (the groups are those built without it, and no bucket holds it); the
    location and keyword stages still keep it whenever its text passes
    their terms, and location grouping files it under its key. *)
Theorem unscheduled_record hash now event :
  start event = None →
  (∀ self before after name,
      Generator.generate hash now self (before ++ event :: after) name
      = Generator.generate hash now self (before ++ after) name)
  ∧ (∀ before after,
      Aggregator._group_by_month (before ++ event :: after)
      = Aggregator._group_by_month (before ++ after))
  ∧ (∀ events k bucket,
      (k, bucket) ∈ Aggregator._group_by_month events → event ∉ bucket)
  ∧ (∀ config events,
      event ∈ events →
      Spec.passes_terms (locations config) (Spec.location_text event) = true →
      event ∈ EventFilter._filter_by_location config events)
  ∧ (∀ config events,
      event ∈ events →
      Spec.passes_terms (keywords config) (Spec.keyword_text event) = true →
      event ∈ EventFilter._filter_by_keywords config events)
  ∧ (∀ events,
      event ∈ events →
      ∃ bucket,
        dict_get (Spec.location_key event) (EventFilter.get_location_groups events)
        = Some bucket ∧ event ∈ bucket).
Proof.
  intros Hs. repeat split.
  - intros self before after name. by apply generate_skips_unscheduled.
  - intros before after. unfold Aggregator._group_by_month.
    rewrite !foldl_app. simpl. by rewrite Hs.
  - intros events k bucket Hitem Hin. rewrite group_by_month_group_by in Hitem.
    destruct (group_by_items _ _ _ _ _ Hitem Hin) as [_ Hk].
    unfold Spec.month_key in Hk. rewrite Hs in Hk. discriminate.
  - intros config events Hin Hpass. rewrite filter_by_location_select.
    apply list_elem_of_filter. split; [by rewrite Hpass | done].
  - intros config events Hin Hpass. rewrite filter_by_keywords_select.
    apply list_elem_of_filter. split; [by rewrite Hpass | done].
  - intros events Hin. rewrite get_location_groups_group_by.
    by apply group_by_placed.
Qed.

(** The unscheduled sample record passes a location stage that asks for
    Leeds and is filed under that key, while the encoder skips it. *)
Lemma unscheduled_record_witness :
  Sample.unscheduled
  ∈ EventFilter._filter_by_location
      (mk_filter_config (Some (mk_terms true (Some ["leeds"]) (Some ["york"]))) None None)
      [Sample.jazz_event; Sample.unscheduled]
  ∧ Generator.generate Sample.hash Sample.now (mk_generator "My Events")
      ([Sample.jazz_event] ++ Sample.unscheduled :: []) None
    = Generator.generate Sample.hash Sample.now (mk_generator "My Events")
        ([Sample.jazz_event] ++ []) None.
Proof.
  destruct (unscheduled_record Sample.hash Sample.now Sample.unscheduled eq_refl)
    as (Hgen & _ & _ & Hloc & _).
  split.
  - apply Hloc; [apply list_elem_of_further, list_elem_of_here | reflexivity].
  - apply Hgen.
Defined.

(** ** Running loop bodies *)

Lemma extends_yield body added : Spec.extends body added → added = Spec.yield body.
Proof.
  intros H. destruct (H (mk_frame [] [])) as (r & out & Hrun).
  unfold Spec.yield. by rewrite Hrun.
Qed.

Lemma settles_extends body added : Spec.settles body added → Spec.extends body added.
Proof. intros H s. destruct (H s) as [out Hs]. eauto. Qed.

Lemma try_except_settles body handler added :
  Spec.extends body added →
  (∀ e, Spec.settles (handler e) []) →
  Spec.settles (try_except body handler) added.
Proof.
  intros Hbody Hhandler s. unfold try_except.
  destruct (Hbody s) as ([[]|e] & out & ->).
  - eauto.
  - destruct (Hhandler e (mk_frame (events s ++ added) (stdout s ++ out)))
      as [out' ->]. simpl. exists (out ++ out').
    by rewrite app_nil_r, app_assoc.
Qed.

Lemma for_each_settles {A} (l : list A) (body : A → M unit) (added : A → list Event) :
  (∀ x, Spec.settles (body x) (added x)) →
  Spec.settles (for_each l body) (flat_map added l).
Proof.
  intros Hbody. induction l as [|x l IH]; intros s; simpl.
  - exists []. unfold ret. rewrite !app_nil_r. by destruct s.
  - unfold bind. destruct (Hbody x s) as [out ->].
    destruct (IH (mk_frame (events s ++ added x) (stdout s ++ out))) as [out' ->].
    simpl. exists (out ++ out'). by rewrite !app_assoc.
Qed.

Lemma print_settles d : Spec.settles (print d) [].
Proof. intros s. exists [d]. unfold print. by rewrite app_nil_r. Qed.

Lemma ret_settles : Spec.settles (ret tt) [].
Proof. intros s. exists []. unfold ret. rewrite !app_nil_r. by destruct s. Qed.

Lemma append_settles event : Spec.settles (append event) [event].
Proof. intros s. exists []. unfold append. by rewrite app_nil_r. Qed.

(** What the page load decides: a load that raises ends the fetch with
    no record and one message; a load that succeeds leaves the fetch to
    the loop over the elements. *)
Lemma fetch_after_load {A} requests_get (select : string → result (list A))
    (url : string) (body : A → M unit) (added : A → list Event) :
  (∀ x, Spec.settles (body x) (added x)) →
  let run :=
    returning_events
      (try_except
         (bind (call (requests_get url)) (λ response,
          bind (call (raise_for_status response)) (λ _,
          bind (call (select (content response))) (λ elements,
          for_each elements body))))
         (λ e, print (ErrorFetching url e))) in
  match Spec.load requests_get select url with
  | Raise e => run = (Ok [], [ErrorFetching url e])
  | Ok elements => fst run = Ok (flat_map added elements)
  end.
Proof.
  intros Hbody run. unfold run, Spec.load, returning_events, try_except, bind, call, print.
  destruct (requests_get url) as [response|e]; [|done].
  destruct (raise_for_status response) as [[]|e]; [|done].
  destruct (select (content response)) as [elements|e]; [|done].
  destruct (for_each_settles elements body added Hbody (mk_frame [] [])) as [out ->].
  done.
Qed.

(** ** The sources *)

Section SourceFacts.
Variable requests_get : string → result Response.
Variable soup_select : string → string → result (list Tag).
Variable soup_ld_json : string → result (list (option string)).
Variable json_loads : string → result LdData.
Variable parse : string → option datetime.
Variable parse_fuzzy : string → option datetime.
Variable urljoin : string → string → string.

(** The record an element of an HTML page yields, if it yields one. *)
Lemma html_element_yield self elem event :
  event ∈ Spec.yield (Source.html_element parse_fuzzy urljoin self elem) →
  ∃ t d l ds u,
    Source._extract_text elem (sel_title (selectors self)) = Ok t
    ∧ Source._extract_date parse_fuzzy elem (sel_date (selectors self)) = Ok (Some d)
    ∧ Source._extract_url urljoin self elem (sel_url (selectors self)) = Ok u
    ∧ Py.truthy t = true
    ∧ event = mk_event (Some t) (Some d) None (Some l) (Some ds) (Some u).
Proof.
  unfold Spec.yield, Source.html_element, bind, call, append, ret.
  destruct (Source._extract_text elem (sel_title _)) as [t|e];
    [|by intros ?%elem_of_nil].
  destruct (Source._extract_date parse_fuzzy elem _) as [d|e];
    [|by intros ?%elem_of_nil].
  destruct (Source._extract_text elem (sel_location _)) as [l|e];
    [|by intros ?%elem_of_nil].
  destruct (Source._extract_text elem (sel_description _)) as [ds|e];
    [|by intros ?%elem_of_nil].
  destruct (Source._extract_url urljoin self elem _) as [u|e];
    [|by intros ?%elem_of_nil].
  destruct (Py.truthy t) eqn:Ht; simpl; [|by intros ?%elem_of_nil].
  destruct d as [d|]; simpl; [|by intros ?%elem_of_nil].
  intros ->%list_elem_of_singleton. by exists t, d, l, ds, u.
Qed.

Lemma html_element_extends self elem :
  Spec.extends (Source.html_element parse_fuzzy urljoin self elem)
               (Spec.yield (Source.html_element parse_fuzzy urljoin self elem)).
Proof.
  intros [evs out].
  unfold Spec.yield, Source.html_element, bind, call, append, ret.
  destruct (Source._extract_text elem (sel_title _)) as [t|e];
    [|by eexists _, []; rewrite !app_nil_r].
  destruct (Source._extract_date parse_fuzzy elem _) as [d|e];
    [|by eexists _, []; rewrite !app_nil_r].
  destruct (Source._extract_text elem (sel_location _)) as [l|e];
    [|by eexists _, []; rewrite !app_nil_r].
  destruct (Source._extract_text elem (sel_description _)) as [ds|e];
    [|by eexists _, []; rewrite !app_nil_r].
  destruct (Source._extract_url urljoin self elem _) as [u|e];
    [|by eexists _, []; rewrite !app_nil_r].
  destruct (Py.truthy t && bool_decide (is_Some d)); simpl;
    by eexists _, []; rewrite !app_nil_r.
Qed.

Lemma html_element_raise self elem e s s' :
  Source.html_element parse_fuzzy urljoin self elem s = (Raise e, s') →
  Spec.yield (Source.html_element parse_fuzzy urljoin self elem) = [].
Proof.
  unfold Spec.yield, Source.html_element, bind, call, append, ret.
  destruct (Source._extract_text elem (sel_title _)) as [t|?]; [|done].
  destruct (Source._extract_date parse_fuzzy elem _) as [d|?]; [|done].
  destruct (Source._extract_text elem (sel_location _)) as [l|?]; [|done].
  destruct (Source._extract_text elem (sel_description _)) as [ds|?]; [|done].
  destruct (Source._extract_url urljoin self elem _) as [u|?]; [|done].
  by destruct (Py.truthy t && bool_decide (is_Some d)).
Qed.

Lemma schema_script_cases script :
  (∃ events_data,
      Spec.settles (Source.schema_script json_loads parse script)
                   (flat_map (λ d, [Source._parse_event parse d]) events_data))
  ∨ (∃ e, ∀ s, Source.schema_script json_loads parse script s = (Raise e, s)).
Proof.
  unfold Source.schema_script, bind, call.
  destruct (match script with Some s => json_loads s | None => _ end) as [data|e];
    [|right; by exists e].
  destruct (match data with DataList _ => _ | _ => _ end) as [events_data|e];
    [|right; by exists e].
  left. exists events_data. apply for_each_settles. intros d. apply append_settles.
Qed.

Lemma schema_script_extends script :
  Spec.extends (Source.schema_script json_loads parse script)
               (Spec.yield (Source.schema_script json_loads parse script)).
Proof.
  destruct (schema_script_cases script) as [[ds H]|[e H]].
  - apply settles_extends in H as H'.
    by rewrite <- (extends_yield _ _ H').
  - intros [evs out]. unfold Spec.yield. rewrite !H. simpl.
    exists (Raise e), []. by rewrite !app_nil_r.
Qed.

Lemma schema_script_raise script e s s' :
  Source.schema_script json_loads parse script s = (Raise e, s') →
  Spec.yield (Source.schema_script json_loads parse script) = [].
Proof.
  destruct (schema_script_cases script) as [[ds H]|[e' H]].
  - destruct (H s) as [out ->]. discriminate.
  - intros _. unfold Spec.yield. by rewrite H.
Qed.

Lemma html_fetch_events_shape self :
  match Spec.load requests_get
          (λ c, soup_select c (default ".event" (sel_container (selectors self))))
          (html_url self) with
  | Raise e =>
      Source.html_fetch_events requests_get soup_select parse_fuzzy urljoin self
      = (Ok [], [ErrorFetching (html_url self) e])
  | Ok elements =>
      fst (Source.html_fetch_events requests_get soup_select parse_fuzzy urljoin self)
      = Ok (flat_map
              (λ elem, Spec.yield (Source.html_element parse_fuzzy urljoin self elem))
              elements)
  end.
Proof.
  apply (fetch_after_load requests_get
           (λ c, soup_select c (default ".event" (sel_container (selectors self))))
           (html_url self)
           (λ elem, try_except (Source.html_element parse_fuzzy urljoin self elem)
                               (λ e, print (ErrorParsingEvent e)))
           (λ elem, Spec.yield (Source.html_element parse_fuzzy urljoin self elem))).
  intros elem. apply try_except_settles.
  - apply html_element_extends.
  - intros e. apply print_settles.
Qed.

Lemma schema_fetch_events_shape self :
  match Spec.load requests_get soup_ld_json (schema_url self) with
  | Raise e =>
      Source.schema_fetch_events requests_get soup_ld_json json_loads parse self
      = (Ok [], [ErrorFetching (schema_url self) e])
  | Ok scripts =>
      fst (Source.schema_fetch_events requests_get soup_ld_json json_loads parse self)
      = Ok (flat_map
              (λ script, Spec.yield (Source.schema_script json_loads parse script))
              scripts)
  end.
Proof.
  apply (fetch_after_load requests_get soup_ld_json (schema_url self)
           (λ script, try_except (Source.schema_script json_loads parse script)
                                 (λ e, ret tt))
           (λ script, Spec.yield (Source.schema_script json_loads parse script))).
  intros script. apply try_except_settles.
  - apply schema_script_extends.
  - intros e. apply ret_settles.
Qed.

Lemma fetch_events_ok source :
  ∃ events out,
    Source.fetch_events requests_get soup_select soup_ld_json json_loads
      parse parse_fuzzy urljoin source = (Ok events, out).
Proof.
  destruct source as [self|self]; simpl.
  - pose proof (html_fetch_events_shape self) as H.
    destruct (Spec.load _ _ _) as [elements|e]; [|rewrite H; eauto].
    destruct (Source.html_fetch_events _ _ _ _ _) as [r out]. simpl in H.
    subst r. eauto.
  - pose proof (schema_fetch_events_shape self) as H.
    destruct (Spec.load _ _ _) as [scripts|e]; [|rewrite H; eauto].
    destruct (Source.schema_fetch_events _ _ _ _ _) as [r out]. simpl in H.
    subst r. eauto.
Qed.

(** Every record the HTML source returns has a non-empty title. *)
Lemma html_fetch_events_titled self events out event :
  Source.html_fetch_events requests_get soup_select parse_fuzzy urljoin self
  = (Ok events, out) →
  event ∈ events → Spec.titled event.
Proof.
  intros Hrun Hin. pose proof (html_fetch_events_shape self) as H.
  rewrite Hrun in H. destruct (Spec.load _ _ _) as [elements|e].
  - simpl in H. injection H as ->.
    apply list_elem_of_In, in_flat_map in Hin as (elem & _ & Hin).
    apply list_elem_of_In, html_element_yield in Hin
      as (t & d & l & ds & u & _ & _ & _ & Ht & ->).
    exists t. split; [done|]. by intros ->.
  - injection H as -> _. by apply elem_of_nil in Hin.
Qed.

(** C9. [fetch_events] of either source always returns a list.  When
    the page load fails (request, status check, or selection of the
    elements), the list is empty and the failure is printed.  Otherwise
    the list is made of what each element yields, in order, an element
    whose processing raises yielding nothing and the others what they
    yield on their own. *)
Theorem fetch_events_never_raises source :
  (∃ events out,
      Source.fetch_events requests_get soup_select soup_ld_json json_loads
        parse parse_fuzzy urljoin source = (Ok events, out))
  ∧ match source with
    | HTML self =>
        match Spec.load requests_get
                (λ c, soup_select c (default ".event" (sel_container (selectors self))))
                (html_url self) with
        | Raise e =>
            Source.html_fetch_events requests_get soup_select parse_fuzzy urljoin self
            = (Ok [], [ErrorFetching (html_url self) e])
        | Ok elements =>
            fst (Source.html_fetch_events requests_get soup_select parse_fuzzy urljoin self)
            = Ok (flat_map
                    (λ elem, Spec.yield (Source.html_element parse_fuzzy urljoin self elem))
                    elements)
            ∧ ∀ elem e s s',
                Source.html_element parse_fuzzy urljoin self elem s = (Raise e, s') →
                Spec.yield (Source.html_element parse_fuzzy urljoin self elem) = []
        end
    | Schema self =>
        match Spec.load requests_get soup_ld_json (schema_url self) with
        | Raise e =>
            Source.schema_fetch_events requests_get soup_ld_json json_loads parse self
            = (Ok [], [ErrorFetching (schema_url self) e])
        | Ok scripts =>
            fst (Source.schema_fetch_events requests_get soup_ld_json json_loads parse self)
            = Ok (flat_map
                    (λ script, Spec.yield (Source.schema_script json_loads parse script))
                    scripts)
            ∧ ∀ script e s s',
                Source.schema_script json_loads parse script s = (Raise e, s') →
                Spec.yield (Source.schema_script json_loads parse script) = []
        end
    end.
Proof.
  split; [apply fetch_events_ok|].
  destruct source as [self|self].
  - pose proof (html_fetch_events_shape self) as H.
    destruct (Spec.load _ _ _) as [elements|e]; [|exact H].
    split; [exact H | apply html_element_raise].
  - pose proof (schema_fetch_events_shape self) as H.
    destruct (Spec.load _ _ _) as [scripts|e]; [|exact H].
    split; [exact H | apply schema_script_raise].
Qed.

(** C4 (amended).  When the url sub-selector matches an anchor with an
    [href], the url of the element is that [href] joined to the source's
    base URL if it begins with a slash, and the [href] itself otherwise;
    this is the [url] field of the record the element yields. *)
Theorem extract_url_leading_slash self elem selector found link :
  Py.truthy selector = true →
  select_one elem selector = Ok (Some found) →
  href found = Some link →
  Source._extract_url urljoin self elem (Some selector)
  = Ok (if Py.startswith link "/" then urljoin (html_url self) link else link)
  ∧ (sel_url (selectors self) = Some selector →
     ∀ event,
       event ∈ Spec.yield (Source.html_element parse_fuzzy urljoin self elem) →
       url event
       = Some (if Py.startswith link "/" then urljoin (html_url self) link else link)).
Proof.
  intros Hsel Hfound Hhref.
  assert (Source._extract_url urljoin self elem (Some selector)
          = Ok (if Py.startswith link "/" then urljoin (html_url self) link else link))
    as Hurl.
  { unfold Source._extract_url. simpl. rewrite Hsel, Hfound, Hhref. simpl.
    destruct link as [|c link]; [done|].
    change (Py.truthy (String c link)) with true. cbv iota.
    by destruct (Py.startswith (String c link) "/"). }
  split; [exact Hurl|].
  intros Hs event (t & d & l & ds & u & _ & _ & Hu & _ & ->)%html_element_yield.
  rewrite Hs, Hurl in Hu. injection Hu as <-. done.
Qed.

End SourceFacts.

Lemma extract_url_leading_slash_witness :
  Source._extract_url Sample.urljoin Sample.site Sample.jazz (Some "a")
  = Ok "https://example.org/events/1".
Proof.
  apply (extract_url_leading_slash Sample.parse_fuzzy Sample.urljoin Sample.site
           Sample.jazz "a" (Sample.leaf "more" (Some "/events/1")) "/events/1").
  - reflexivity.
  - reflexivity.
  - reflexivity.
Defined.

(** C4, as stated, fails on a relative link without a leading slash: it
    is handed on as it is, whatever [urljoin] would make of it. *)
Lemma extract_url_counterexample :
  href (Sample.leaf "more" (Some "events/2")) = Some "events/2"
  ∧ Spec.is_absolute "events/2" = false
  ∧ ∀ urljoin,
      Source._extract_url urljoin Sample.site Sample.undated (Some "a")
      = Ok "events/2".
Proof. repeat split. Qed.

(** ** The aggregator *)

Section AggregatorFacts.
Variable requests_get : string → result Response.
Variable soup_select : string → string → result (list Tag).
Variable soup_ld_json : string → result (list (option string)).
Variable json_loads : string → result LdData.
Variable parse : string → option datetime.
Variable parse_fuzzy : string → option datetime.
Variable urljoin : string → string → string.
Variable hash : string → Z.
Variable now : nat → datetime.
Variable write_file : nat → string → Calendar → result unit.

Lemma collect_events_snoc sources source :
  Aggregator.collect_events requests_get soup_select soup_ld_json json_loads
    parse parse_fuzzy urljoin (sources ++ [source])
  = match Aggregator.collect_events requests_get soup_select soup_ld_json
            json_loads parse parse_fuzzy urljoin sources with
    | Raise e => Raise e
    | Ok all_events =>
        match fst (Source.fetch_events requests_get soup_select soup_ld_json
                     json_loads parse parse_fuzzy urljoin source) with
        | Raise e => Raise e
        | Ok events => Ok (all_events ++ events)
        end
    end.
Proof. unfold Aggregator.collect_events. by rewrite foldl_snoc. Qed.

(** With HTML sources only, [collect_events] returns, and every record
    it returns has a non-empty title. *)
Lemma collect_events_titled sources :
  (∀ source, source ∈ sources → Spec.is_html source = true) →
  ∃ all_events,
    Aggregator.collect_events requests_get soup_select soup_ld_json json_loads
      parse parse_fuzzy urljoin sources = Ok all_events
    ∧ ∀ event, event ∈ all_events → Spec.titled event.
Proof.
  induction sources as [|source sources IH] using rev_ind; intros Hhtml.
  - exists []. split; [done|]. by intros event ?%elem_of_nil.
  - destruct IH as (all_events & Hall & Htitled).
    { intros s Hs. apply Hhtml. rewrite elem_of_app. by left. }
    rewrite collect_events_snoc, Hall.
    assert (Spec.is_html source = true) as Hsrc.
    { apply Hhtml. rewrite elem_of_app, list_elem_of_singleton. by right. }
    destruct source as [self|self]; [|discriminate]. simpl.
    destruct (fetch_events_ok requests_get soup_select soup_ld_json json_loads
                parse parse_fuzzy urljoin (HTML self)) as (events & out & Hrun).
    simpl in Hrun. rewrite Hrun. simpl.
    exists (all_events ++ events). split; [done|].
    intros event [Hin|Hin]%elem_of_app; [by apply Htitled|].
    by apply (html_fetch_events_titled requests_get soup_select parse_fuzzy
                urljoin self events out).
Qed.

(** Every calendar is made from records of the filtered list. *)
Lemma save_calls_events config filtered call event :
  call ∈ Aggregator.save_calls config filtered →
  event ∈ Aggregator.save_events call → event ∈ filtered.
Proof.
  unfold Aggregator.save_calls. rewrite !elem_of_app.
  intros [Hmain|[Hloc|Hmonth]] Hin.
  - apply list_elem_of_singleton in Hmain. by subst call.
  - destruct (by_location _); [|by apply elem_of_nil in Hloc].
    apply list_elem_of_In, in_map_iff in Hloc as ([k bucket] & <- & Hitem).
    apply list_elem_of_In in Hitem. rewrite get_location_groups_group_by in Hitem.
    by destruct (group_by_items _ _ _ _ _ Hitem Hin).
  - destruct (by_month _); [|by apply elem_of_nil in Hmonth].
    apply list_elem_of_In, in_map_iff in Hmonth as ([k bucket] & <- & Hitem).
    apply list_elem_of_In in Hitem. rewrite group_by_month_group_by in Hitem.
    by destruct (group_by_items _ _ _ _ _ Hitem Hin).
Qed.

(** *** Writing the files *)

Lemma save_all_snoc config calls c :
  Aggregator.save_all hash now write_file config (calls ++ [c])
  = match fst (Aggregator.save_all hash now write_file config calls) with
    | Raise e => Aggregator.save_all hash now write_file config calls
    | Ok _ =>
        let written := snd (Aggregator.save_all hash now write_file config calls) in
        match Aggregator._save_calendar hash now write_file config (length written) c with
        | Raise e => (Raise e, written)
        | Ok _ => (Ok tt, written ++ [Aggregator.ics_file hash now config c])
        end
    end.
Proof.
  unfold Aggregator.save_all. rewrite foldl_snoc.
  destruct (foldl _ _ calls) as [[u|e] written]; done.
Qed.

(** The files written are those of the calls before the first that
    raises, in order; the run ends with the exception of that call, or
    returns when there is none. *)
Lemma save_all_written config calls :
  ∃ k : nat,
    snd (Aggregator.save_all hash now write_file config calls)
    = map (Aggregator.ics_file hash now config) (take k calls)
    ∧ match fst (Aggregator.save_all hash now write_file config calls) with
      | Ok _ => k = length calls
      | Raise e =>
          ∃ c, calls !! k = Some c
               ∧ Aggregator._save_calendar hash now write_file config k c = Raise e
      end
    ∧ ∀ (i : nat) c, (i < k)%nat → calls !! i = Some c →
        Aggregator._save_calendar hash now write_file config i c = Ok tt.
Proof.
  induction calls as [|c calls IH] using rev_ind.
  - exists O. split; [done|]. split; [done|].
    intros i c Hi. by apply Nat.nlt_0_r in Hi.
  - destruct IH as (k & Hsnd & Hfst & Hbefore). rewrite save_all_snoc.
    destruct (fst (Aggregator.save_all hash now write_file config calls))
      as [u|e] eqn:Hrun.
    + subst k. rewrite firstn_all in Hsnd. cbv zeta.
      rewrite Hsnd, length_map.
      destruct (Aggregator._save_calendar hash now write_file config (length calls) c)
        as [[]|e] eqn:Hc.
      * exists (S (length calls)). cbn [fst snd]. split; [|split].
        -- rewrite firstn_all2 by (rewrite length_app; simpl; lia).
           by rewrite map_app.
        -- rewrite length_app. simpl. lia.
        -- intros i c' Hi Hlook.
           destruct (decide (i = length calls)) as [->|Hne].
           ++ rewrite list_lookup_middle in Hlook by done. by injection Hlook as <-.
           ++ apply (Hbefore i c'); [lia|].
              rewrite lookup_app_l in Hlook by lia. exact Hlook.
      * exists (length calls). cbn [fst snd]. split; [|split].
        -- by rewrite take_app_length.
        -- exists c. split; [|exact Hc]. by apply list_lookup_middle.
        -- intros i c' Hi Hlook. apply (Hbefore i c' Hi).
           rewrite lookup_app_l in Hlook by lia. exact Hlook.
    + destruct Hfst as (c' & Hlook & Hc').
      pose proof (lookup_lt_Some _ _ _ Hlook) as Hlt.
      exists k. rewrite Hrun. split; [|split].
      * rewrite Hsnd, take_app_le by lia. done.
      * exists c'. split; [|exact Hc']. rewrite lookup_app_l by lia. exact Hlook.
      * intros i c'' Hi Hlook'. apply (Hbefore i c'' Hi).
        rewrite lookup_app_l in Hlook' by lia. exact Hlook'.
Qed.

(** When no call raises, every file is written. *)
Lemma save_all_ok config calls :
  (∀ (n : nat) c, calls !! n = Some c →
     Aggregator._save_calendar hash now write_file config n c = Ok tt) →
  Aggregator.save_all hash now write_file config calls
  = (Ok tt, map (Aggregator.ics_file hash now config) calls).
Proof.
  intros Hall. destruct (save_all_written config calls) as (k & Hsnd & Hfst & _).
  destruct (Aggregator.save_all hash now write_file config calls) as [[[]|e] written];
    cbn [fst snd] in *.
  - subst k. by rewrite firstn_all in Hsnd; subst written.
  - destruct Hfst as (c & Hlook & Hc). rewrite (Hall k c Hlook) in Hc. discriminate.
Qed.

(** Every file written is the file of one of the calls. *)
Lemma save_all_file config calls file :
  file ∈ snd (Aggregator.save_all hash now write_file config calls) →
  ∃ call, call ∈ calls ∧ file = Aggregator.ics_file hash now config call.
Proof.
  destruct (save_all_written config calls) as (k & -> & _).
  intros (call & -> & Hin)%list_elem_of_fmap. exists call. split; [|done].
  eapply elem_of_sublist; [exact Hin | apply sublist_take].
Qed.

Lemma generate_calendars_collected sources config all_events :
  Aggregator.collect_events requests_get soup_select soup_ld_json json_loads
    parse parse_fuzzy urljoin sources = Ok all_events →
  Aggregator.generate_calendars requests_get soup_select soup_ld_json
    json_loads parse parse_fuzzy urljoin hash now write_file sources config
  = match EventFilter.filter_events parse (Aggregator.event_filter config) all_events with
    | Raise e => (Raise e, [])
    | Ok filtered =>
        Aggregator.save_all hash now write_file config
          (Aggregator.save_calls config filtered)
    end.
Proof. intros Hall. unfold Aggregator.generate_calendars. by rewrite Hall. Qed.

(** C1 (amended).  When every source is an HTML source, collecting the
    records returns, and no calendar the aggregator writes (main, per
    location, per month) is made from a record with an empty title or
    holds an event block with an empty summary: that holds of every
    calendar the filtered list gives rise to, all of which are written
    when no write raises, and of every file written in any run. *)
Theorem html_records_titled sources config :
  (∀ source, source ∈ sources → Spec.is_html source = true) →
  ∃ all_events,
    Aggregator.collect_events requests_get soup_select soup_ld_json json_loads
      parse parse_fuzzy urljoin sources = Ok all_events
    ∧ (∀ filtered,
         EventFilter.filter_events parse (Aggregator.event_filter config) all_events
         = Ok filtered →
         ((∀ (n : nat) call,
             Aggregator.save_calls config filtered !! n = Some call →
             Aggregator._save_calendar hash now write_file config n call = Ok tt) →
          Aggregator.generate_calendars requests_get soup_select soup_ld_json
            json_loads parse parse_fuzzy urljoin hash now write_file sources config
          = (Ok tt, map (Aggregator.ics_file hash now config)
                        (Aggregator.save_calls config filtered)))
         ∧ ∀ call, call ∈ Aggregator.save_calls config filtered →
             (∀ event, event ∈ Aggregator.save_events call → Spec.titled event)
             ∧ (∀ block,
                   block ∈ cal_events (snd (Aggregator.ics_file hash now config call)) →
                   ∃ t, property "summary" block = Some (Text t) ∧ t ≠ ""))
    ∧ (∀ file block,
         file ∈ snd (Aggregator.generate_calendars requests_get soup_select
                       soup_ld_json json_loads parse parse_fuzzy urljoin hash now
                       write_file sources config) →
         block ∈ cal_events (snd file) →
         ∃ t, property "summary" block = Some (Text t) ∧ t ≠ "").
Proof.
  intros Hhtml.
  destruct (collect_events_titled sources Hhtml) as (all_events & Hall & Htitled).
  exists all_events. split; [exact Hall|].
  assert (∀ filtered call,
            EventFilter.filter_events parse (Aggregator.event_filter config) all_events
            = Ok filtered →
            call ∈ Aggregator.save_calls config filtered →
            (∀ event, event ∈ Aggregator.save_events call → Spec.titled event)
            ∧ (∀ block,
                  block ∈ cal_events (snd (Aggregator.ics_file hash now config call)) →
                  ∃ t, property "summary" block = Some (Text t) ∧ t ≠ "")) as Hcalls.
  { intros filtered call Hfiltered Hcall.
    assert (∀ event, event ∈ Aggregator.save_events call → Spec.titled event) as Hrec.
    { intros event Hin. apply Htitled.
      eapply elem_of_sublist; [|exact (filter_events_ok_sublist _ _ _ _ Hfiltered)].
      by apply (save_calls_events config _ call). }
    split; [exact Hrec|].
    intros block Hblock. unfold Aggregator.ics_file in Hblock. cbn [snd] in Hblock.
    apply generate_blocks_from in Hblock as (event & d & n & Hin & _ & ->).
    destruct (Hrec event Hin) as (t & Ht & Hne).
    exists t. split; [by rewrite summary_of_event_block, Ht | exact Hne]. }
  split.
  - intros filtered Hfiltered. split; [|intros call; by apply Hcalls].
    intros Hwrites. rewrite (generate_calendars_collected _ _ _ Hall), Hfiltered.
    by apply save_all_ok.
  - intros file block. rewrite (generate_calendars_collected _ _ _ Hall).
    destruct (EventFilter.filter_events parse (Aggregator.event_filter config) all_events)
      as [filtered|e] eqn:Hfiltered; [|by intros ?%elem_of_nil].
    intros (call & Hcall & ->)%save_all_file.
    by apply (Hcalls filtered call eq_refl Hcall).
Qed.

End AggregatorFacts.

Lemma html_records_titled_witness :
  ∃ all_events,
    Aggregator.collect_events Sample.requests_get Sample.soup_select
      Sample.soup_ld_json Sample.json_loads Sample.parse Sample.parse_fuzzy
      Sample.urljoin [HTML Sample.site; HTML Sample.bad_site] = Ok all_events
    ∧ (∀ filtered,
         EventFilter.filter_events Sample.parse
           (Aggregator.event_filter Sample.all_outputs) all_events
         = Ok filtered →
         ((∀ (n : nat) call,
             Aggregator.save_calls Sample.all_outputs filtered !! n = Some call →
             Aggregator._save_calendar Sample.hash Sample.now Sample.write_file
               Sample.all_outputs n call = Ok tt) →
          Aggregator.generate_calendars Sample.requests_get Sample.soup_select
            Sample.soup_ld_json Sample.json_loads Sample.parse Sample.parse_fuzzy
            Sample.urljoin Sample.hash Sample.now Sample.write_file
            [HTML Sample.site; HTML Sample.bad_site] Sample.all_outputs
          = (Ok tt, map (Aggregator.ics_file Sample.hash Sample.now Sample.all_outputs)
                        (Aggregator.save_calls Sample.all_outputs filtered)))
         ∧ ∀ call, call ∈ Aggregator.save_calls Sample.all_outputs filtered →
             (∀ event, event ∈ Aggregator.save_events call → Spec.titled event)
             ∧ (∀ block,
                   block ∈ cal_events
                             (snd (Aggregator.ics_file Sample.hash Sample.now
                                     Sample.all_outputs call)) →
                   ∃ t, property "summary" block = Some (Text t) ∧ t ≠ ""))
    ∧ (∀ file block,
         file ∈ snd (Aggregator.generate_calendars Sample.requests_get
                       Sample.soup_select Sample.soup_ld_json Sample.json_loads
                       Sample.parse Sample.parse_fuzzy Sample.urljoin Sample.hash
                       Sample.now Sample.write_file
                       [HTML Sample.site; HTML Sample.bad_site] Sample.all_outputs) →
         block ∈ cal_events (snd file) →
         ∃ t, property "summary" block = Some (Text t) ∧ t ≠ "").
Proof.
  apply (html_records_titled Sample.requests_get Sample.soup_select
           Sample.soup_ld_json Sample.json_loads Sample.parse Sample.parse_fuzzy
           Sample.urljoin Sample.hash Sample.now Sample.write_file
           [HTML Sample.site; HTML Sample.bad_site] Sample.all_outputs).
  intros source [->|[->|[]%elem_of_nil]%elem_of_cons]%elem_of_cons; reflexivity.
Defined.

(** C1, as stated, fails on the structured-metadata source: an event
    object without a name becomes a record with an empty title, which
    passes the filters and is encoded in the main calendar. *)
Lemma empty_title_counterexample :
  fst (Source.fetch_events Sample.requests_get Sample.soup_select
         Sample.soup_ld_json Sample.json_loads Sample.parse Sample.parse_fuzzy
         Sample.urljoin (Schema Sample.markup))
  = Ok [Sample.nameless_event]
  ∧ title Sample.nameless_event = Some ""
  ∧ Aggregator.generate_calendars Sample.requests_get Sample.soup_select
      Sample.soup_ld_json Sample.json_loads Sample.parse Sample.parse_fuzzy
      Sample.urljoin Sample.hash Sample.now Sample.write_file
      [Schema Sample.markup] Sample.plain_config
    = (Ok tt,
       [("events.ics",
         mk_calendar
           [("prodid", Text "-//Event Aggregator//EN"); ("version", Text "2.0");
            ("x-wr-calname", Text "My Events"); ("x-wr-timezone", Text "UTC")]
           [Generator.event_block Sample.hash Sample.now
              Sample.nameless_event Sample.mar15 0])]).
Proof. repeat split. Qed.

(** ** Sample runs *)

(** The sample site: one card is kept, the undated and the untitled
    card are passed over without a message. *)
Example fetch_sample_site :
  Source.fetch_events Sample.requests_get Sample.soup_select Sample.soup_ld_json
    Sample.json_loads Sample.parse Sample.parse_fuzzy Sample.urljoin
    (HTML Sample.site)
  = (Ok [Sample.jazz_event], []).
Proof. reflexivity. Qed.

(** The sample markup: the block that does not decode and the array
    with a stray entry are passed over, the third block is read. *)
Example fetch_sample_markup :
  Source.fetch_events Sample.requests_get Sample.soup_select Sample.soup_ld_json
    Sample.json_loads Sample.parse Sample.parse_fuzzy Sample.urljoin
    (Schema Sample.markup)
  = (Ok [Sample.nameless_event], []).
Proof. reflexivity. Qed.

(** A server that answers 404. *)
Example fetch_missing_page :
  Source.fetch_events Sample.requests_get Sample.soup_select Sample.soup_ld_json
    Sample.json_loads Sample.parse Sample.parse_fuzzy Sample.urljoin
    (Schema (mk_schema_source "https://example.org/missing"))
  = (Ok [], [ErrorFetching "https://example.org/missing" (Exception "HTTPError")]).
Proof. reflexivity. Qed.

(** On the sample site read with a rejected title selector, every card
    raises and yields nothing, and the fetch still returns. *)
Lemma fetch_events_never_raises_witness :
  Spec.yield (Source.html_element Sample.parse_fuzzy Sample.urljoin
                Sample.bad_site Sample.jazz) = [].
Proof.
  destruct (fetch_events_never_raises Sample.requests_get Sample.soup_select
              Sample.soup_ld_json Sample.json_loads Sample.parse
              Sample.parse_fuzzy Sample.urljoin (HTML Sample.bad_site))
    as [_ [_ Hraise]].
  apply (Hraise Sample.jazz (Exception "SelectorSyntaxError")
           (mk_frame [] []) (mk_frame [] [])).
  reflexivity.
Defined.

(** * Further properties *)

(** ** The filter engine as one selection *)

(** X1. [filter_events] is one selection by the verdict of the enabled
    stages on each record.  It returns exactly when that verdict returns
    on every record; it then keeps, in input order, exactly the records
    the verdict is in favour of.  Otherwise it raises the exception of
    the first record whose verdict raises: the [TypeError] of comparing
    a start with a date bound, which a record dropped by a term stage
    never causes. *)
Theorem filter_events_selection parse config events :
  EventFilter.filter_events parse config events
  = Spec.select (View.keeps parse config) events
  ∧ (Spec.returns (EventFilter.filter_events parse config events)
     ↔ ∀ event, event ∈ events → Spec.returns (View.keeps parse config event))
  ∧ (∀ out, EventFilter.filter_events parse config events = Ok out →
       out = filter (λ e, Spec.holds (View.keeps parse config e)) events
       ∧ ∀ event, event ∈ out
                  ↔ event ∈ events ∧ View.keeps parse config event = Ok true)
  ∧ (∀ e, EventFilter.filter_events parse config events = Raise e →
       e = Exception "TypeError"
       ∧ ∃ before event after,
           events = before ++ event :: after
           ∧ View.keeps parse config event = Raise e
           ∧ View.passes config event = true
           ∧ ∀ event', event' ∈ before →
               Spec.returns (View.keeps parse config event')).
Proof.
  split; [apply filter_events_select|]. rewrite filter_events_select.
  split; [|split].
  - split.
    + destruct (Spec.select _ events) as [out|] eqn:Hsel; [|done].
      intros _. by apply (select_ok _ _ _ Hsel).
    + intros Hall. by rewrite select_returns.
  - intros out [-> Hall]%select_ok. split; [done|]. intros event.
    rewrite list_elem_of_filter.
    destruct (View.keeps parse config event) as [[]|]; simpl; split;
      try done; tauto || (intros [_ ?]; done).
  - intros e (before & event & after & -> & He & Hbefore)%select_raise.
    assert (View.passes config event = true ∧ e = Exception "TypeError") as [Hp ->].
    { unfold View.keeps in He. destruct (View.passes config event); [|done].
      split; [done|]. destruct (Spec.date_range_on config); [|done].
      by apply in_range_raise in He. }
    split; [done|]. by exists before, event, after.
Qed.

(** X2. Filtering a filtered list again changes nothing. *)
Theorem filter_events_idempotent parse config events out :
  EventFilter.filter_events parse config events = Ok out →
  EventFilter.filter_events parse config out = Ok out.
Proof.
  rewrite !filter_events_select. intros [-> _]%select_ok.
  rewrite select_returns.
  - f_equal. by apply list_filter_filter_l.
  - intros event [Hh _]%list_elem_of_filter.
    by destruct (View.keeps parse config event).
Qed.

Lemma filter_events_idempotent_witness :
  EventFilter.filter_events Sample.parse
    (View.with_dates "2024-03-15T10:00:00" "2024-12-31") [Sample.jazz_event]
  = Ok [Sample.jazz_event].
Proof.
  apply (filter_events_idempotent Sample.parse
           (View.with_dates "2024-03-15T10:00:00" "2024-12-31")
           [Sample.unscheduled; Sample.jazz_event]).
  reflexivity.
Defined.

(** X3. Filtering a concatenation is concatenating the filtered parts:
    filtering the records of all sources at once or source by source
    gives the same list, and raises the same exception when a part
    does. *)
Theorem filter_events_app parse config events1 events2 :
  EventFilter.filter_events parse config (events1 ++ events2)
  = Spec.app_results (EventFilter.filter_events parse config events1)
                     (EventFilter.filter_events parse config events2).
Proof. rewrite !filter_events_select. apply select_app. Qed.

(** Selecting from a list and then keeping by a test, when the
    selection returns, is selecting from the records the test keeps. *)
Lemma select_then_filter verdict (keep : Event → bool) events out :
  Spec.select verdict events = Ok out →
  Spec.select verdict (filter (λ e, keep e) events)
  = Ok (filter (λ e, keep e) out).
Proof.
  intros [-> Hall]%select_ok. rewrite select_returns.
  - f_equal. rewrite !list_filter_filter. apply list_filter_iff. tauto.
  - intros event [_ Hin]%list_elem_of_filter. by apply Hall.
Qed.

(** X4. The location and the keyword stage commute.  The date-range
    stage commutes with either whenever it returns on the whole list:
    run after the term stage, it then returns what the term stage keeps
    of its output. *)
Theorem filter_stages_commute parse config events :
  EventFilter._filter_by_keywords config
    (EventFilter._filter_by_location config events)
  = EventFilter._filter_by_location config
      (EventFilter._filter_by_keywords config events)
  ∧ ∀ out,
      EventFilter._filter_by_date_range parse config events = Ok out →
      EventFilter._filter_by_date_range parse config
        (EventFilter._filter_by_location config events)
      = Ok (EventFilter._filter_by_location config out)
      ∧ EventFilter._filter_by_date_range parse config
          (EventFilter._filter_by_keywords config events)
        = Ok (EventFilter._filter_by_keywords config out).
Proof.
  split.
  - rewrite !filter_by_location_select, !filter_by_keywords_select,
      !list_filter_filter.
    apply list_filter_iff; tauto.
  - intros out. rewrite !filter_by_date_range_select,
      !filter_by_location_select, !filter_by_keywords_select.
    intros Hout. split; by apply select_then_filter.
Qed.

(** Run first, the date-range stage raises on a record that the
    location stage would have dropped: the two orders differ there. *)
Example date_range_after_location :
  EventFilter._filter_by_date_range Sample.parse
    (mk_filter_config (Some (mk_terms true None (Some ["online"]))) None
       (Some (mk_date_range true (Some "2024-01-01") None)))
    (EventFilter._filter_by_location
       (mk_filter_config (Some (mk_terms true None (Some ["online"]))) None
          (Some (mk_date_range true (Some "2024-01-01") None)))
       [Sample.jazz_event; Sample.webinar_event])
  = Ok [Sample.jazz_event]
  ∧ EventFilter._filter_by_date_range Sample.parse
      (mk_filter_config (Some (mk_terms true None (Some ["online"]))) None
         (Some (mk_date_range true (Some "2024-01-01") None)))
      [Sample.jazz_event; Sample.webinar_event]
    = Raise (Exception "TypeError").
Proof. split; reflexivity. Qed.

(** ** Terms *)

Lemma contains_empty text : Py.contains "" text = true.
Proof. by destruct text. Qed.

Lemma filter_none {A} (keep : A → bool) (l : list A) :
  (∀ x, x ∈ l → keep x = false) → filter (λ x, keep x) l = [].
Proof.
  induction l as [|x l IH]; intros H; [done|].
  rewrite filter_cons, (H x) by apply list_elem_of_here. simpl.
  apply IH. intros y Hy. apply H. by apply list_elem_of_further.
Qed.

(** X5. An empty string among the exclude terms of a location or
    keyword stage occurs in every text: the stage then drops every
    record. *)
Theorem blank_exclude_term_drops_all st config events :
  "" ∈ default [] (exclude (Spec.stage_section st config)) →
  Spec.run_stage st config events = [].
Proof.
  intros Hin. rewrite run_stage_select. apply filter_none. intros e _.
  unfold Spec.passes_terms. simpl.
  rewrite (any_term_in_intro _ "") by (done || apply contains_empty). done.
Qed.

Lemma blank_exclude_term_drops_all_witness :
  EventFilter._filter_by_keywords
    (mk_filter_config None (Some (mk_terms true None (Some ["workshop"; ""]))) None)
    [Sample.jazz_event; Sample.unscheduled] = [].
Proof.
  apply (blank_exclude_term_drops_all Spec.KeywordStage).
  simpl. apply list_elem_of_further, list_elem_of_here.
Defined.

(** X6. An empty string among the include terms matches every text: the
    stage then keeps exactly the records no exclude term occurs in, as
    if there were no include list. *)
Theorem blank_include_term_keeps_all st config events :
  "" ∈ default [] (include (Spec.stage_section st config)) →
  Spec.run_stage st config events
  = filter (λ e, negb (EventFilter.any_term_in
                         (default [] (exclude (Spec.stage_section st config)))
                         (Spec.stage_text st e))) events.
Proof.
  intros Hin. rewrite run_stage_select. apply list_filter_iff. intros e.
  unfold Spec.passes_terms. simpl.
  rewrite (any_term_in_intro (default [] (include (Spec.stage_section st config)))
             "" (Spec.stage_text st e))
    by (done || apply contains_empty).
  by rewrite orb_true_r, andb_true_r.
Qed.

Lemma blank_include_term_keeps_all_witness :
  EventFilter._filter_by_location
    (mk_filter_config (Some (mk_terms true (Some [""]) (Some ["york"]))) None None)
    [Sample.jazz_event; Sample.unscheduled]
  = filter (λ e, negb (EventFilter.any_term_in ["york"] (Spec.location_text e)))
           [Sample.jazz_event; Sample.unscheduled].
Proof.
  apply (blank_include_term_keeps_all Spec.LocationStage).
  simpl. apply list_elem_of_here.
Defined.

Lemma lower_char_idempotent c : Py.lower_char (Py.lower_char c) = Py.lower_char c.
Proof. by destruct c as [[] [] [] [] [] [] [] []]. Qed.

Lemma lower_idempotent s : Py.lower (Py.lower s) = Py.lower s.
Proof.
  induction s as [|c s IH]; [done|]. simpl. by rewrite lower_char_idempotent, IH.
Qed.

Lemma any_term_in_lower terms text :
  EventFilter.any_term_in (map Py.lower terms) text
  = EventFilter.any_term_in terms text.
Proof.
  unfold EventFilter.any_term_in. induction terms as [|t terms IH]; [done|].
  simpl. by rewrite lower_idempotent, IH.
Qed.

Lemma passes_lower_terms section text :
  Spec.passes_terms (View.lower_terms <$> section) text
  = Spec.passes_terms section text.
Proof.
  unfold Spec.passes_terms. destruct section as [[on inc exc]|]; [|done]. simpl.
  destruct exc as [exc|]; destruct inc as [inc|]; simpl;
    rewrite ?any_term_in_lower; try done; by destruct inc.
Qed.

(** X7. Terms are compared in lower case: a configuration and the one
    with every include and exclude term written in lower case select the
    same records, stage by stage and as a whole. *)
Theorem terms_case_insensitive parse config events :
  EventFilter._filter_by_location (View.lower_config config) events
  = EventFilter._filter_by_location config events
  ∧ EventFilter._filter_by_keywords (View.lower_config config) events
    = EventFilter._filter_by_keywords config events
  ∧ EventFilter.filter_events parse (View.lower_config config) events
    = EventFilter.filter_events parse config events.
Proof.
  rewrite !filter_by_location_select, !filter_by_keywords_select,
    !filter_events_select.
  repeat split.
  - apply list_filter_iff; intros e. simpl. by rewrite passes_lower_terms.
  - apply list_filter_iff; intros e. simpl. by rewrite passes_lower_terms.
  - apply select_ext. intros e _.
    unfold View.keeps, View.passes. simpl. rewrite !passes_lower_terms.
    unfold Spec.locations_on, Spec.keywords_on. simpl.
    by destruct (locations config) as [[]|], (keywords config) as [[]|].
Qed.

(** ** The order of timestamps *)

Lemma lex_opp c1 c2 : lex (CompOpp c1) (CompOpp c2) = CompOpp (lex c1 c2).
Proof. by destruct c1. Qed.

Lemma fields_compare_antisym a b :
  fields_compare b a = CompOpp (fields_compare a b).
Proof.
  unfold fields_compare. rewrite <- !lex_opp, <- !Z.compare_antisym. done.
Qed.

Lemma lex_eq x y c : lex (x ?= y) c = Eq → x = y ∧ c = Eq.
Proof.
  destruct (Z.compare_spec x y) as [->| |]; simpl; [done|discriminate..].
Qed.

(** Values with the same fields and the same offset are the same. *)
Lemma fields_compare_eq a b :
  utcoffset a = utcoffset b → fields_compare a b = Eq → a = b.
Proof.
  unfold fields_compare. destruct a, b; simpl. intros ->.
  intros (-> & (-> & (-> & (-> & (-> & (-> & ->%Z.compare_eq)%lex_eq)%lex_eq)%lex_eq)
            %lex_eq)%lex_eq)%lex_eq.
  done.
Qed.

Lemma lex_lt_le_trans x y z r1 r2 r3 :
  (r1 = Lt → r2 ≠ Gt → r3 = Lt) →
  lex (x ?= y) r1 = Lt → lex (y ?= z) r2 ≠ Gt → lex (x ?= z) r3 = Lt.
Proof.
  intros Hr.
  destruct (Z.compare_spec x y), (Z.compare_spec y z), (Z.compare_spec x z);
    simpl; try done; try lia; auto.
Qed.

Lemma fields_lt_le_trans a b c :
  fields_compare a b = Lt → fields_compare b c ≠ Gt → fields_compare a c = Lt.
Proof.
  unfold fields_compare. repeat apply lex_lt_le_trans.
  intros H1 H2.
  destruct (Z.compare_spec (microsecond a) (microsecond b)),
    (Z.compare_spec (microsecond b) (microsecond c)),
    (Z.compare_spec (microsecond a) (microsecond c)); try done; lia.
Qed.

(** Values with the same offset, two naive ones among them, are
    compared by their fields. *)
Lemma dt_compare_same_offset a b :
  utcoffset a = utcoffset b → dt_compare a b = Ok (fields_compare a b).
Proof. intros H. unfold dt_compare. by rewrite bool_decide_eq_true_2. Qed.

Lemma aware_false d : Spec.aware d = false → utcoffset d = None.
Proof. unfold Spec.aware. by destruct (utcoffset d). Qed.

(** Whatever the date-range stage raises is a [TypeError]. *)
Lemma date_range_raise parse config events e :
  EventFilter._filter_by_date_range parse config events = Raise e →
  e = Exception "TypeError".
Proof.
  rewrite filter_by_date_range_select.
  intros (_ & event & _ & _ & He & _)%select_raise. by apply in_range_raise in He.
Qed.

(** Between naive bounds in the wrong order, no naive start is in
    range. *)
Lemma in_range_inverted lo hi event :
  utcoffset lo = None → utcoffset hi = None → dt_lt hi lo = Ok true →
  (∀ d, start event = Some d → utcoffset d = None) →
  Spec.in_range (Some lo) (Some hi) event = Ok false.
Proof.
  intros Hlo Hhi Hlt Hnaive. unfold Spec.in_range.
  destruct (start event) as [d|]; [|done]. specialize (Hnaive d eq_refl).
  unfold dt_lt in Hlt. rewrite dt_compare_same_offset in Hlt by congruence.
  simpl. unfold dt_lt, dt_gt. rewrite !dt_compare_same_offset by congruence.
  destruct (fields_compare d lo) eqn:Hd; [|done|].
  - rewrite (fields_compare_antisym hi d), (fields_lt_le_trans hi lo d); [done| |].
    + by destruct (fields_compare hi lo).
    + by rewrite (fields_compare_antisym d lo), Hd.
  - rewrite (fields_compare_antisym hi d), (fields_lt_le_trans hi lo d); [done| |].
    + by destruct (fields_compare hi lo).
    + by rewrite (fields_compare_antisym d lo), Hd.
Qed.

(** A start that is aware where the lower bound is naive, or the other
    way round, makes the verdict raise. *)
Lemma in_range_disagrees lo hi event d :
  start event = Some d → Spec.aware d ≠ Spec.aware lo →
  Spec.in_range (Some lo) hi event = Raise (Exception "TypeError").
Proof.
  intros Hs Hne. unfold Spec.in_range. rewrite Hs. simpl.
  by destruct (dt_lt_cases d lo) as [[? _]|[_ ->]].
Qed.

(** X8. With naive bounds of which the upper lies before the lower, the
    date-range stage keeps nothing: it returns the empty list when every
    start is naive, and raises [TypeError] when a start is aware. *)
Theorem inverted_date_range_keeps_nothing parse config events lo hi :
  Spec.lower_bound parse config = Some lo →
  Spec.upper_bound parse config = Some hi →
  Spec.aware lo = false → Spec.aware hi = false →
  dt_lt hi lo = Ok true →
  (∀ out, EventFilter._filter_by_date_range parse config events = Ok out →
          out = [])
  ∧ ((∀ event d, event ∈ events → start event = Some d → Spec.aware d = false) →
     EventFilter._filter_by_date_range parse config events = Ok [])
  ∧ (∀ event d, event ∈ events → start event = Some d → Spec.aware d = true →
     EventFilter._filter_by_date_range parse config events
     = Raise (Exception "TypeError")).
Proof.
  intros Hlo Hhi Hnlo Hnhi Hlt.
  assert (∀ event,
            (∀ d, start event = Some d → Spec.aware d = false) →
            Spec.in_range (Some lo) (Some hi) event = Ok false) as Hnone.
  { intros event Hnaive.
    apply in_range_inverted; [by apply aware_false..|done|].
    intros d Hd. by apply aware_false, Hnaive. }
  rewrite filter_by_date_range_select, Hlo, Hhi. split; [|split].
  - intros out [-> Hall]%select_ok. apply filter_none. intros event Hin.
    rewrite Hnone; [done|]. intros d Hd.
    specialize (Hall event Hin). destruct (Spec.aware d) eqn:Ha; [|done].
    rewrite (in_range_disagrees lo (Some hi) event d) in Hall; [done..|congruence].
  - intros Hnaive. rewrite select_returns.
    + f_equal. apply filter_none. intros event Hin. rewrite Hnone; [done|].
      intros d Hd. by apply (Hnaive event).
    + intros event Hin. rewrite Hnone; [done|]. intros d Hd. by apply (Hnaive event).
  - intros event d Hin Hd Ha.
    destruct (Spec.select _ events) as [out|e] eqn:Hsel.
    + exfalso. refine (select_raises _ events event _ Hin _ _).
      * apply (in_range_disagrees lo (Some hi) event d Hd). congruence.
      * by rewrite Hsel.
    + f_equal. apply (date_range_raise parse config events).
      by rewrite filter_by_date_range_select, Hlo, Hhi.
Qed.

Lemma inverted_date_range_keeps_nothing_witness :
  EventFilter._filter_by_date_range Sample.parse
    (View.with_dates "2024-12-31" "2024-01-01")
    [Sample.jazz_event; Sample.unscheduled] = Ok []
  ∧ EventFilter._filter_by_date_range Sample.parse
      (View.with_dates "2024-12-31" "2024-01-01")
      [Sample.jazz_event; Sample.webinar_event] = Raise (Exception "TypeError").
Proof.
  split.
  - apply (inverted_date_range_keeps_nothing _ _ _ Sample.dec31 Sample.jan01);
      try reflexivity.
    intros event d [->|[->|[]%elem_of_nil]%elem_of_cons]%elem_of_cons;
      [by intros [= <-] | discriminate].
  - destruct (inverted_date_range_keeps_nothing Sample.parse
                (View.with_dates "2024-12-31" "2024-01-01")
                [Sample.jazz_event; Sample.webinar_event] Sample.dec31 Sample.jan01
                eq_refl eq_refl eq_refl eq_refl eq_refl) as (_ & _ & Hraise).
    apply (Hraise Sample.webinar_event Sample.mar15_cet); try reflexivity.
    apply list_elem_of_further, list_elem_of_here.
Defined.

(** X9. With both bounds on the same value, the date-range stage returns
    exactly when every start is naive if the bound is and aware if it
    is; it then keeps exactly the records whose start compares equal to
    the bound: the bound itself among the values with its offset, the
    same instant among aware values with another offset. *)
Theorem single_instant_date_range parse config events b event :
  Spec.lower_bound parse config = Some b →
  Spec.upper_bound parse config = Some b →
  (Spec.returns (EventFilter._filter_by_date_range parse config events)
   ↔ ∀ e, e ∈ events → Spec.agrees b e)
  ∧ (∀ out, EventFilter._filter_by_date_range parse config events = Ok out →
       (event ∈ out
        ↔ event ∈ events ∧ ∃ d, start event = Some d ∧ dt_compare d b = Ok Eq))
  ∧ (∀ d, utcoffset d = utcoffset b → dt_compare d b = Ok Eq ↔ d = b)
  ∧ (∀ d off off', utcoffset d = Some off → utcoffset b = Some off' →
       off ≠ off' → dt_compare d b = Ok Eq ↔ utc_micros d = utc_micros b).
Proof.
  intros Hlo Hhi. rewrite filter_by_date_range_select, Hlo, Hhi.
  split; [|split; [|split]].
  - split.
    + destruct (Spec.select _ events) as [out|] eqn:Hsel; [|done].
      intros _ e Hin d Hd. apply select_ok in Hsel as [_ Hall].
      specialize (Hall e Hin).
      destruct (decide (Spec.aware d = Spec.aware b)) as [|Hne]; [done|].
      by rewrite (in_range_disagrees b (Some b) e d) in Hall.
    + intros Hagree. rewrite select_returns; [done|].
      intros e Hin. apply in_range_returns.
      intros bound [[= <-]|[= <-]]; by apply Hagree.
  - intros out [-> _]%select_ok. rewrite list_elem_of_filter, in_range_holds.
    simpl. unfold dt_lt, dt_gt. split.
    + intros [(d & Hd & Hb & Ha) Hin]. split; [done|]. exists d. split; [done|].
      by destruct (dt_compare d b) as [[]|].
    + intros [Hin (d & Hd & Heq)]. split; [|done]. exists d. by rewrite Heq.
  - intros d Hoff. rewrite dt_compare_same_offset by done. split.
    + intros [= Heq]. by apply fields_compare_eq.
    + intros ->. by rewrite fields_compare_refl.
  - intros d off off' Hd Hb Hne. unfold dt_compare. rewrite Hd, Hb.
    rewrite bool_decide_eq_false_2 by congruence.
    rewrite <- Z.compare_eq_iff. split; [by intros [= ?] | by intros ->].
Qed.

(** Both bounds at 10:00, one hour east of UTC: the record dated so is
    kept, and so is the one dated 09:00 UTC. *)
Lemma single_instant_date_range_witness :
  EventFilter._filter_by_date_range Sample.parse
    (View.with_dates "2024-03-15T10:00:00+01:00" "2024-03-15T10:00:00+01:00")
    [Sample.unscheduled; Sample.webinar_event; Sample.broadcast_event]
  = Ok [Sample.webinar_event; Sample.broadcast_event]
  ∧ ∃ d, start Sample.broadcast_event = Some d
         ∧ dt_compare d Sample.mar15_cet = Ok Eq.
Proof.
  split; [reflexivity|].
  destruct (single_instant_date_range Sample.parse
              (View.with_dates "2024-03-15T10:00:00+01:00" "2024-03-15T10:00:00+01:00")
              [Sample.unscheduled; Sample.webinar_event; Sample.broadcast_event]
              Sample.mar15_cet Sample.broadcast_event eq_refl eq_refl)
    as (_ & Hout & _).
  destruct (proj1 (Hout [Sample.webinar_event; Sample.broadcast_event] eq_refl))
    as [_ Hd]; [|exact Hd].
  apply list_elem_of_further, list_elem_of_here.
Defined.

(** ** The groups as a dictionary *)

Section DictInvariants.
Context {V : Type}.
Implicit Types (d : dict V) (k : string).

Lemma keys_dict_update k (f : V → V) d : (dict_update k f d).*1 = d.*1.
Proof.
  induction d as [|[k0 v0] d IH]; [done|]. cbn [dict_update].
  destruct (String.eqb k k0); [done|]. rewrite !fmap_cons. by rewrite IH.
Qed.

Lemma dict_get_None k d : dict_get k d = None ↔ k ∉ d.*1.
Proof.
  induction d as [|[k0 v0] d IH]; simpl.
  - split; [intros _ []%elem_of_nil | done].
  - rewrite not_elem_of_cons. destruct (String.eqb_spec k k0) as [->|Hne].
    + split; [done|]. by intros [? _].
    + rewrite IH. tauto.
Qed.

Lemma dict_get_item k (v : V) d : NoDup d.*1 → (k, v) ∈ d → dict_get k d = Some v.
Proof.
  induction d as [|[k0 v0] d IH]; simpl.
  - by intros _ ?%elem_of_nil.
  - intros [Hk0 Hd]%NoDup_cons [Heq|Hin]%elem_of_cons.
    + injection Heq as -> ->. by rewrite String.eqb_refl.
    + destruct (String.eqb_spec k k0) as [->|Hne]; [|by apply IH].
      exfalso. apply Hk0. apply list_elem_of_fmap. by exists (k0, v).
Qed.

End DictInvariants.

Lemma keys_group_append key event groups :
  (group_append key event groups).*1
  = if dict_mem key groups then groups.*1 else groups.*1 ++ [key].
Proof.
  unfold group_append. rewrite keys_dict_update.
  destruct (dict_mem key groups); [done|].
  unfold dict_add. by rewrite fmap_app.
Qed.

Lemma group_by_keys_distinct key events : NoDup (Spec.group_by key events).*1.
Proof.
  induction events as [|e events IH] using rev_ind; [constructor|].
  rewrite group_by_snoc. destruct (key e) as [k|]; [|done].
  rewrite keys_group_append. unfold dict_mem.
  destruct (dict_get k _) as [b|] eqn:Hget; [done|].
  apply NoDup_app. split; [done|]. split; [|apply NoDup_singleton].
  intros k' Hk' ->%list_elem_of_singleton. by apply dict_get_None in Hget.
Qed.

Lemma group_by_item key events k bucket :
  (k, bucket) ∈ Spec.group_by key events →
  bucket = filter (λ e, key e = Some k) events ∧ bucket ≠ [].
Proof.
  intros Hitem.
  apply (dict_get_item _ _ _ (group_by_keys_distinct key events)) in Hitem.
  rewrite group_by_get in Hitem.
  destruct (filter _ events) as [|e0 b]; [done|].
  injection Hitem as <-. done.
Qed.

Lemma concat_dict_update k event (d : dict (list Event)) :
  dict_mem k d = true →
  concat (dict_update k (λ bucket, bucket ++ [event]) d).*2
  ≡ₚ concat d.*2 ++ [event].
Proof.
  unfold dict_mem. induction d as [|[k0 b0] d IH]; simpl; [done|].
  destruct (String.eqb_spec k k0) as [->|Hne]; simpl.
  - intros _. rewrite <- !app_assoc. f_equiv. apply Permutation_app_comm.
  - intros Hmem. rewrite IH by done. by rewrite app_assoc.
Qed.

Lemma concat_group_append key event groups :
  concat (group_append key event groups).*2 ≡ₚ concat groups.*2 ++ [event].
Proof.
  unfold group_append. destruct (dict_mem key groups) eqn:Hmem.
  - by apply concat_dict_update.
  - rewrite concat_dict_update.
    + unfold dict_add. rewrite fmap_app, concat_app. simpl. by rewrite !app_nil_r.
    + unfold dict_mem. rewrite dict_get_add, String.eqb_refl.
      by destruct (dict_get key groups).
Qed.

Lemma concat_group_by key events :
  concat (Spec.group_by key events).*2 ≡ₚ filter (λ e, is_Some (key e)) events.
Proof.
  induction events as [|e events IH] using rev_ind; [done|].
  rewrite group_by_snoc, filter_app, filter_cons, filter_nil.
  destruct (key e) as [k|].
  - rewrite concat_group_append, IH. by rewrite decide_True by eauto.
  - rewrite IH, decide_False by (by intros [? ?]). by rewrite app_nil_r.
Qed.

(** X10. [get_location_groups]: the bucket of a key is the list of the
    records with that key, in input order; a key no record has is not in
    the dictionary. *)
Theorem location_bucket_contents events k :
  dict_get k (EventFilter.get_location_groups events)
  = match filter (λ e, Spec.location_key e = k) events with
    | [] => None
    | bucket => Some bucket
    end.
Proof.
  rewrite get_location_groups_group_by, group_by_get.
  rewrite (list_filter_iff _ (λ e, Spec.location_key e = k)); [done|].
  intros e. split; [by intros [= ->] | by intros ->].
Qed.

(** X11. [_group_by_month]: the bucket of a month key is the list of the
    records whose start falls in that month, in input order; a month
    without records is not in the dictionary. *)
Theorem month_bucket_contents events k :
  dict_get k (Aggregator._group_by_month events)
  = match filter (λ e, strftime_Y_m <$> start e = Some k) events with
    | [] => None
    | bucket => Some bucket
    end.
Proof. rewrite group_by_month_group_by. apply group_by_get. Qed.

(** X12. Both grouping functions build a dictionary in the proper
    sense: no key occurs twice among the items, no bucket is empty, and
    every item holds exactly the records of its key. *)
Theorem groups_are_dictionaries events :
  NoDup (EventFilter.get_location_groups events).*1
  ∧ NoDup (Aggregator._group_by_month events).*1
  ∧ (∀ k bucket, (k, bucket) ∈ EventFilter.get_location_groups events →
       bucket ≠ []
       ∧ dict_get k (EventFilter.get_location_groups events) = Some bucket)
  ∧ (∀ k bucket, (k, bucket) ∈ Aggregator._group_by_month events →
       bucket ≠ []
       ∧ dict_get k (Aggregator._group_by_month events) = Some bucket).
Proof.
  rewrite get_location_groups_group_by, group_by_month_group_by.
  split; [apply group_by_keys_distinct|]. split; [apply group_by_keys_distinct|].
  split; intros k bucket Hitem.
  - split; [by destruct (group_by_item _ _ _ _ Hitem)|].
    by apply dict_get_item; [apply group_by_keys_distinct|].
  - split; [by destruct (group_by_item _ _ _ _ Hitem)|].
    by apply dict_get_item; [apply group_by_keys_distinct|].
Qed.

(** X13. Grouping loses and duplicates nothing: the location buckets
    together hold the records of the input, each as often as it occurs
    there, and the month buckets together the records that have a
    start. *)
Theorem groups_cover_input events :
  concat (EventFilter.get_location_groups events).*2 ≡ₚ events
  ∧ concat (Aggregator._group_by_month events).*2
    ≡ₚ filter (λ e, is_Some (start e)) events.
Proof.
  rewrite get_location_groups_group_by, group_by_month_group_by, !concat_group_by.
  split.
  - rewrite (list_filter_iff _ (λ _, True)) by (intros e; split; eauto).
    induction events as [|e events IH]; [done|].
    rewrite filter_cons. simpl. by rewrite IH.
  - rewrite (list_filter_iff _ (λ e, is_Some (start e))); [done|].
    intros e. unfold Spec.month_key. by rewrite fmap_is_Some.
Qed.

(** ** Characters of trimmed and split strings *)

Lemma chars_app s1 s2 : View.chars (s1 +:+ s2) = View.chars s1 ++ View.chars s2.
Proof.
  induction s1 as [|c s1 IH]; [done|].
  change (String c s1 +:+ s2) with (String c (s1 +:+ s2)).
  unfold View.chars in *. simpl. by rewrite IH.
Qed.

Lemma chars_rev_app s1 s2 :
  View.chars (String.rev_app s1 s2) = reverse (View.chars s1) ++ View.chars s2.
Proof.
  revert s2. induction s1 as [|c s1 IH]; intros s2; [done|].
  simpl. rewrite IH. unfold View.chars. simpl.
  by rewrite reverse_cons, <- app_assoc.
Qed.

Lemma chars_rev s : View.chars (String.rev s) = reverse (View.chars s).
Proof. unfold String.rev. rewrite chars_rev_app. apply app_nil_r. Qed.

Lemma chars_inj s1 s2 : View.chars s1 = View.chars s2 → s1 = s2.
Proof.
  unfold View.chars. intros H.
  by rewrite <- (string_of_list_ascii_of_string s1), H,
    string_of_list_ascii_of_string.
Qed.

Lemma rev_involutive s : String.rev (String.rev s) = s.
Proof. apply chars_inj. by rewrite !chars_rev, reverse_involutive. Qed.

(** Left trimming removes a run of white space from the front. *)
Lemma chars_lstrip s :
  ∃ w, View.chars s = w ++ View.chars (Py.lstrip s)
       ∧ Forall (λ c, Py.isspace c = true) w.
Proof.
  induction s as [|c s (w & Hw & Hsp)].
  - by exists [].
  - simpl. destruct (Py.isspace c) eqn:Hc.
    + exists (c :: w). unfold View.chars in *. simpl. rewrite Hw.
      split; [done|]. by constructor.
    + by exists [].
Qed.

Lemma elem_of_chars_lstrip c s :
  c ∈ View.chars (Py.lstrip s) → c ∈ View.chars s.
Proof.
  destruct (chars_lstrip s) as (w & -> & _). rewrite elem_of_app. auto.
Qed.

Lemma elem_of_chars_strip c s :
  c ∈ View.chars (Py.strip s) → c ∈ View.chars s.
Proof.
  unfold Py.strip, Py.rstrip.
  intros H%elem_of_chars_lstrip. rewrite chars_rev, elem_of_reverse in H.
  apply elem_of_chars_lstrip in H. by rewrite chars_rev, elem_of_reverse in H.
Qed.

Lemma contains_comma_chars s :
  Py.contains "," s = true ↔ ","%char ∈ View.chars s.
Proof.
  induction s as [|c s IH].
  - split; [done | by intros ?%elem_of_nil].
  - rewrite contains_comma_cons, orb_true_iff, IH, Ascii.eqb_eq.
    unfold View.chars. cbn [list_ascii_of_string]. rewrite elem_of_cons. tauto.
Qed.

Lemma no_comma_chars s :
  Py.contains "," s = false ↔ ","%char ∉ View.chars s.
Proof.
  rewrite <- contains_comma_chars. by destruct (Py.contains "," s).
Qed.

Lemma split_nonempty sep s : Py.split sep s ≠ [].
Proof.
  destruct s as [|c s]; [done|]. simpl.
  destruct (Ascii.eqb c sep); [done|]. by destruct (Py.split sep s).
Qed.

Lemma split_segments s p :
  p ∈ Py.split "," s → ","%char ∉ View.chars p.
Proof.
  revert p. induction s as [|c s IH]; intros p; simpl.
  - intros ->%list_elem_of_singleton. by intros ?%elem_of_nil.
  - destruct (Ascii.eqb_spec c ",") as [->|Hne].
    + intros [->|Hin]%elem_of_cons; [by intros ?%elem_of_nil | by apply IH].
    + destruct (Py.split "," s) as [|p0 ps] eqn:Hsplit.
      * intros ->%list_elem_of_singleton.
        unfold View.chars. simpl. rewrite list_elem_of_singleton. congruence.
      * intros [->|Hin]%elem_of_cons.
        -- unfold View.chars. simpl. rewrite elem_of_cons.
           intros [?|Hp0]; [congruence|].
           by apply (IH p0); [apply list_elem_of_here|].
        -- apply IH. by apply list_elem_of_further.
Qed.

Lemma normalize_location_comma_free location :
  Py.contains "," (EventFilter._normalize_location location) = false.
Proof.
  unfold EventFilter._normalize_location.
  destruct (Py.contains "," (Py.strip location)) eqn:Hc; [|done].
  destruct (last _) as [p|] eqn:Hlast; simpl.
  - apply last_Some_elem_of, list_elem_of_In, in_map_iff in Hlast
      as (q & <- & Hq%list_elem_of_In).
    apply no_comma_chars. intros H%elem_of_chars_strip.
    by apply (split_segments _ _ Hq).
  - apply last_None in Hlast. apply map_eq_nil in Hlast.
    by apply split_nonempty in Hlast.
Qed.

(** X14. A location key never contains a comma, whatever the location
    string; so no key of the location groups does. *)
Theorem location_keys_have_no_comma events :
  (∀ location,
      Py.contains "," (EventFilter._normalize_location location) = false)
  ∧ ∀ k bucket, (k, bucket) ∈ EventFilter.get_location_groups events →
      Py.contains "," k = false.
Proof.
  split; [apply normalize_location_comma_free|].
  intros k bucket Hitem. rewrite get_location_groups_group_by in Hitem.
  destruct (group_by_item _ _ _ _ Hitem) as [-> Hne].
  destruct (filter _ events) as [|e b] eqn:Hf; [done|].
  assert (e ∈ filter (λ e, Some (Spec.location_key e) = Some k) events) as He
    by (rewrite Hf; apply list_elem_of_here).
  apply list_elem_of_filter in He as [[= <-] _].
  apply normalize_location_comma_free.
Qed.

(** ** File names of the location calendars *)

Lemma chars_replace a b s :
  View.chars (Py.replace a b s)
  = (λ c, if Ascii.eqb c a then b else c) <$> View.chars s.
Proof.
  induction s as [|c s IH]; [done|]. unfold View.chars in *. simpl.
  by rewrite IH.
Qed.

Lemma elem_of_chars_strip_unsafe c s :
  c ∈ View.chars (Aggregator.strip_unsafe s) →
  Aggregator.is_word c || Py.isspace c || Ascii.eqb c "-" = true.
Proof.
  induction s as [|c0 s IH]; simpl.
  - by intros ?%elem_of_nil.
  - destruct (_ || _ || Ascii.eqb c0 "-") eqn:Hc0; [|done].
    unfold View.chars. simpl. intros [->|Hin]%elem_of_cons; [done|].
    by apply IH.
Qed.

Lemma safe_location_safe_chars location c :
  c ∈ View.chars (Aggregator.safe_location location) → View.safe_char c = true.
Proof.
  unfold Aggregator.safe_location. rewrite chars_replace.
  intros (c0 & -> & Hc0)%list_elem_of_fmap.
  apply elem_of_chars_strip, elem_of_chars_strip_unsafe in Hc0.
  unfold View.safe_char. destruct (Ascii.eqb_spec c0 " ") as [->|Hne]; [done|].
  assert (Ascii.eqb c0 " " = false) as -> by by apply Ascii.eqb_neq.
  rewrite andb_true_r.
  by destruct (Aggregator.is_word c0), (Py.isspace c0), (Ascii.eqb c0 "-").
Qed.

(** X15. The token [generate_calendars] puts into the file name of a
    location calendar consists of word characters, hyphens and white
    space other than the space; so the file name has no space, no slash
    and no colon. *)
Theorem location_file_name_is_safe location :
  let file_name := "events_" +:+ Aggregator.safe_location location +:+ ".ics" in
  (∀ c, c ∈ View.chars (Aggregator.safe_location location) →
        View.safe_char c = true)
  ∧ (" "%char ∉ View.chars file_name)
  ∧ ("/"%char ∉ View.chars file_name)
  ∧ (":"%char ∉ View.chars file_name).
Proof.
  intros file_name.
  split; [apply safe_location_safe_chars|].
  assert (∀ c, View.safe_char c = false → c ∉ View.chars "events_" →
               c ∉ View.chars ".ics" → c ∉ View.chars file_name) as H.
  { intros c Hc H1 H2. unfold file_name. rewrite !chars_app, !elem_of_app.
    intros [Hin|[Hin|Hin]]; [done| |done].
    apply safe_location_safe_chars in Hin. congruence. }
  repeat split; (apply H; [done| |]); intros Hin;
    unfold View.chars in Hin; simpl in Hin;
    repeat (apply elem_of_cons in Hin as [?|Hin]; [done|]);
    by apply elem_of_nil in Hin.
Qed.

(** ** Trimming twice *)

Lemma lstrip_head s :
  match Py.lstrip s with String c _ => Py.isspace c = false | "" => True end.
Proof.
  induction s as [|c s IH]; [done|]. simpl.
  destruct (Py.isspace c) eqn:Hc; [exact IH | exact Hc].
Qed.

Lemma lstrip_fixed s :
  match s with String c _ => Py.isspace c = false | "" => True end →
  Py.lstrip s = s.
Proof. destruct s as [|c s]; [done|]. simpl. by intros ->. Qed.

Lemma lstrip_idempotent s : Py.lstrip (Py.lstrip s) = Py.lstrip s.
Proof. apply lstrip_fixed, lstrip_head. Qed.

Lemma rstrip_idempotent s : Py.rstrip (Py.rstrip s) = Py.rstrip s.
Proof. unfold Py.rstrip. by rewrite rev_involutive, lstrip_idempotent. Qed.

Lemma head_of_chars s :
  match s with String c _ => Py.isspace c = false | "" => True end
  ↔ match View.chars s with c :: _ => Py.isspace c = false | [] => True end.
Proof. by destruct s. Qed.

(** Left trimming keeps a string clean on the right. *)
Lemma rstrip_lstrip_fixed s :
  Py.rstrip s = s → Py.rstrip (Py.lstrip s) = Py.lstrip s.
Proof.
  unfold Py.rstrip. intros Hs.
  assert (Py.lstrip (String.rev s) = String.rev s) as Hrev
    by (by rewrite <- Hs at 2; rewrite rev_involutive).
  pose proof (lstrip_head (String.rev s)) as Hhead. rewrite Hrev in Hhead.
  apply head_of_chars in Hhead.
  rewrite lstrip_fixed; [apply rev_involutive|].
  apply head_of_chars. rewrite chars_rev.
  destruct (chars_lstrip s) as (w & Hw & _).
  rewrite chars_rev, Hw, reverse_app in Hhead.
  by destruct (reverse (View.chars (Py.lstrip s))).
Qed.

Lemma strip_idempotent s : Py.strip (Py.strip s) = Py.strip s.
Proof.
  unfold Py.strip.
  rewrite (rstrip_lstrip_fixed (Py.rstrip s)) by apply rstrip_idempotent.
  apply lstrip_idempotent.
Qed.

Lemma normalize_location_stripped location :
  Py.strip (EventFilter._normalize_location location)
  = EventFilter._normalize_location location.
Proof.
  unfold EventFilter._normalize_location.
  destruct (Py.contains "," (Py.strip location)) eqn:Hc;
    [|apply strip_idempotent].
  destruct (last _) as [p|] eqn:Hlast; simpl.
  - apply last_Some_elem_of, list_elem_of_In, in_map_iff in Hlast as (q & <- & _).
    apply strip_idempotent.
  - apply strip_idempotent.
Qed.

(** X16. A location key is in normal form: it has no white space at
    either end (trimming it changes nothing), and normalising it again
    gives the same key. *)
Theorem location_key_is_normal location :
  let key := EventFilter._normalize_location location in
  Py.strip key = key ∧ EventFilter._normalize_location key = key.
Proof.
  intros key. split; [apply normalize_location_stripped|].
  pose proof (normalize_location_stripped location) as Hs.
  pose proof (normalize_location_comma_free location) as Hc.
  fold key in Hs, Hc. unfold EventFilter._normalize_location at 1.
  by rewrite Hs, Hc.
Qed.

(** ** Event blocks *)

Lemma scheduled_snoc events event :
  View.scheduled (events ++ [event])
  = View.scheduled events
    ++ match start event with Some d => [(event, d)] | None => [] end.
Proof.
  unfold View.scheduled. rewrite omap_app. f_equal.
  simpl. by destruct (start event).
Qed.

Lemma generate_blocks hash now self name events :
  cal_events (Generator.generate hash now self events name)
  = imap (λ n '(event, d), Generator.event_block hash now event d n)
         (View.scheduled events).
Proof.
  induction events as [|e events IH] using rev_ind; [done|].
  rewrite generate_snoc, scheduled_snoc, imap_app. cbv zeta. rewrite IH.
  destruct (start e) as [d|]; simpl.
  - by rewrite length_imap, Nat.add_0_r.
  - by rewrite app_nil_r.
Qed.

(** X17. The calendar holds one event block per record that has a
    start, in the order of the records, the n-th block built from the
    n-th such record; records without a start only shorten the list. *)
Theorem generate_blocks_in_order hash now self name events :
  cal_events (Generator.generate hash now self events name)
  = imap (λ n '(event, d), Generator.event_block hash now event d n)
         (View.scheduled events)
  ∧ length (cal_events (Generator.generate hash now self events name))
    = length (filter (λ e, is_Some (start e)) events)
  ∧ (length (cal_events (Generator.generate hash now self events name))
     ≤ length events)%nat.
Proof.
  split; [apply generate_blocks|].
  assert (length (View.scheduled events)
          = length (filter (λ e, is_Some (start e)) events)) as Hlen.
  { induction events as [|e events IH]; [done|].
    rewrite filter_cons. unfold View.scheduled in *.
    destruct (start e) as [d|] eqn:Hs.
    - rewrite decide_True by eauto. simpl. by rewrite Hs, <- IH.
    - rewrite decide_False by (by intros [? ?]). simpl. by rewrite Hs. }
  rewrite generate_blocks, length_imap, Hlen.
  split; [done | apply length_filter].
Qed.

Lemma event_block_lookup hash now event d n :
  let block := Generator.event_block hash now event d n in
  property "dtstart" block = Some (DateTime d)
  ∧ property "dtend" block = DateTime <$> end_ event
  ∧ property "location" block
    = (if Py.truthy_opt (location event) then Text <$> location event else None)
  ∧ property "description" block
    = (if Py.truthy_opt (description event) then Text <$> description event else None)
  ∧ property "url" block
    = (if Py.truthy_opt (url event) then Text <$> url event else None)
  ∧ property "uid" block
    = Some (Text (Py.str_int (hash (default "" (title event) +:+ str_datetime d))
                  +:+ "@event-aggregator"))
  ∧ property "dtstamp" block = Some (DateTime (now n)).
Proof.
  destruct event as [t s en l ds u].
  destruct en, l as [[|? ?]|], ds as [[|? ?]|], u as [[|? ?]|];
    repeat split; reflexivity.
Qed.

(** X18. What can be read back from an event block: the start, the
    clock reading, the end exactly when the record has one, and the
    location, description and url exactly when they are non-empty
    strings; an empty or missing text leaves no property behind. *)
Theorem event_block_fields hash now event d n :
  let block := Generator.event_block hash now event d n in
  property "dtstart" block = Some (DateTime d)
  ∧ property "dtstamp" block = Some (DateTime (now n))
  ∧ property "dtend" block = DateTime <$> end_ event
  ∧ property "location" block
    = (if Py.truthy_opt (location event) then Text <$> location event else None)
  ∧ property "description" block
    = (if Py.truthy_opt (description event) then Text <$> description event else None)
  ∧ property "url" block
    = (if Py.truthy_opt (url event) then Text <$> url event else None).
Proof.
  intros block.
  destruct (event_block_lookup hash now event d n) as (? & ? & ? & ? & ? & ? & ?).
  done.
Qed.

(** X19. The uid of an event block depends on the title and the start
    of its record only: records that agree on both get the same uid,
    whatever their other fields and their place in the calendar, and a
    missing title counts as an empty one. *)
Theorem uid_depends_on_title_and_start hash now event1 event2 d n1 n2 :
  default "" (title event1) = default "" (title event2) →
  property "uid" (Generator.event_block hash now event1 d n1)
  = property "uid" (Generator.event_block hash now event2 d n2).
Proof.
  intros Ht.
  destruct (event_block_lookup hash now event1 d n1) as (_ & _ & _ & _ & _ & -> & _).
  destruct (event_block_lookup hash now event2 d n2) as (_ & _ & _ & _ & _ & -> & _).
  by rewrite Ht.
Qed.

Lemma uid_depends_on_title_and_start_witness :
  property "uid"
    (Generator.event_block Sample.hash Sample.now Sample.nameless_event Sample.mar15 0)
  = property "uid"
      (Generator.event_block Sample.hash Sample.now
         (mk_event None (Some Sample.mar15) (Some Sample.dec31) (Some "Leeds") None None)
         Sample.mar15 3).
Proof. apply uid_depends_on_title_and_start. reflexivity. Defined.

(** ** What the sources hand on *)

Section FetchFacts.
Variable requests_get : string → result Response.
Variable soup_select : string → string → result (list Tag).
Variable soup_ld_json : string → result (list (option string)).
Variable json_loads : string → result LdData.
Variable parse : string → option datetime.
Variable parse_fuzzy : string → option datetime.
Variable urljoin : string → string → string.

Lemma flat_map_nil {A B} (f : A → list B) (l : list A) :
  (∀ x, x ∈ l → f x = []) → flat_map f l = [].
Proof.
  induction l as [|x l IH]; intros H; [done|]. simpl.
  rewrite (H x) by apply list_elem_of_here. apply IH.
  intros y Hy. apply H. by apply list_elem_of_further.
Qed.

Lemma no_elements {A} (l : list A) : (∀ x, x ∉ l) → l = [].
Proof.
  destruct l as [|x l]; [done|]. intros H. destruct (H x). apply list_elem_of_here.
Qed.

(** A failed page load leaves the caller with no record. *)
Lemma fetched_load_fails source e :
  View.load_fails requests_get soup_select soup_ld_json source e →
  Source.fetch_events requests_get soup_select soup_ld_json json_loads
    parse parse_fuzzy urljoin source
  = (Ok [], [ErrorFetching (View.source_url source) e]).
Proof.
  destruct source as [self|self]; simpl; intros Hload.
  - pose proof (html_fetch_events_shape requests_get soup_select parse_fuzzy
                  urljoin self) as H.
    by rewrite Hload in H.
  - pose proof (schema_fetch_events_shape requests_get soup_ld_json json_loads
                  parse self) as H.
    by rewrite Hload in H.
Qed.

(** X20. A response whose status code is from 400 to 599 ends the fetch
    of either source with no record and the message for an HTTP error,
    whatever the body of the response. *)
Theorem http_error_status source response :
  requests_get (View.source_url source) = Ok response →
  (400 ≤ status_code response < 600) →
  Source.fetch_events requests_get soup_select soup_ld_json json_loads
    parse parse_fuzzy urljoin source
  = (Ok [], [ErrorFetching (View.source_url source) (Exception "HTTPError")]).
Proof.
  intros Hget Hstatus. apply fetched_load_fails.
  assert (raise_for_status response = Raise (Exception "HTTPError")) as Hraise.
  { unfold raise_for_status.
    destruct (Z.leb_spec 400 (status_code response)); [|lia].
    destruct (Z.ltb_spec (status_code response) 600); [done|lia]. }
  destruct source as [self|self]; simpl in *; unfold Spec.load;
    by rewrite Hget, Hraise.
Qed.

(** X21. An HTML source configured without a title selector, or without
    a date selector, never returns a record, whatever the page holds. *)
Theorem html_source_needs_title_and_date self :
  Py.truthy_opt (sel_title (selectors self)) = false
  ∨ Py.truthy_opt (sel_date (selectors self)) = false →
  View.fetched (Source.html_fetch_events requests_get soup_select parse_fuzzy
                  urljoin self) = [].
Proof.
  intros Hsel. unfold View.fetched.
  pose proof (html_fetch_events_shape requests_get soup_select parse_fuzzy
                urljoin self) as H.
  destruct (Spec.load _ _ _) as [elements|e]; [|by rewrite H].
  rewrite H. apply flat_map_nil. intros elem _. apply no_elements.
  intros event (t & d & l & ds & u & Ht & Hd & _ & Htruthy & _)%html_element_yield.
  destruct Hsel as [Hsel|Hsel].
  - unfold Source._extract_text in Ht. rewrite Hsel in Ht. simpl in Ht.
    injection Ht as <-. discriminate.
  - unfold Source._extract_date, Source._extract_text in Hd.
    rewrite Hsel in Hd. simpl in Hd. discriminate.
Qed.




End FetchFacts.

Lemma http_error_status_witness :
  Source.fetch_events Sample.requests_get Sample.soup_select Sample.soup_ld_json
    Sample.json_loads Sample.parse Sample.parse_fuzzy Sample.urljoin
    (HTML (mk_html_source "https://example.org/missing" no_selectors))
  = (Ok [], [ErrorFetching "https://example.org/missing" (Exception "HTTPError")]).
Proof.
  apply (http_error_status Sample.requests_get Sample.soup_select
           Sample.soup_ld_json Sample.json_loads Sample.parse Sample.parse_fuzzy
           Sample.urljoin
           (HTML (mk_html_source "https://example.org/missing" no_selectors))
           (mk_response 404 "")).
  - reflexivity.
  - simpl. lia.
Defined.

Lemma html_source_needs_title_and_date_witness :
  View.fetched
    (Source.html_fetch_events Sample.requests_get Sample.soup_select
       Sample.parse_fuzzy Sample.urljoin
       (mk_html_source "https://example.org/cal/"
          (mk_selectors None None (Some ".date") None None (Some "a")))) = [].
Proof. apply html_source_needs_title_and_date. by left. Defined.

(** ** JSON-LD blocks *)

Lemma event_items_all_objects items :
  Source.event_items items
  = if View.all_objects items
    then Ok (filter (λ d, Source.is_event d) (View.objects items))
    else Raise (Exception "AttributeError").
Proof.
  induction items as [|[d|] items IH]; [done| |done].
  cbn [Source.event_items]. rewrite IH.
  change (View.all_objects (ItemDict d :: items)) with (View.all_objects items).
  destruct (View.all_objects items); [|done].
  change (View.objects (ItemDict d :: items)) with (d :: View.objects items).
  rewrite filter_cons. by destruct (Source.is_event d).
Qed.

Lemma yield_for_each_append {A} (f : A → Event) (l : list A) :
  Spec.yield (for_each l (λ x, append (f x))) = f <$> l.
Proof.
  rewrite <- (extends_yield _ (flat_map (λ x, [f x]) l)).
  - induction l as [|x l IH]; [done|]. simpl. by rewrite IH.
  - apply settles_extends, for_each_settles. intros x. apply append_settles.
Qed.

(** X22. What one JSON-LD script block contributes: for an array whose
    entries are all objects, one record per entry of type Event, in
    order; for an array with an entry that is no object, nothing, not
    even for its Event entries; for a single object, its record if it is
    of type Event; nothing for any other value and for text that does
    not decode. *)
Theorem schema_block_records json_loads parse s :
  Spec.yield (Source.schema_script json_loads parse (Some s))
  = match json_loads s with
    | Ok (DataList items) =>
        if View.all_objects items
        then Source._parse_event parse
               <$> filter (λ d, Source.is_event d) (View.objects items)
        else []
    | Ok (DataDict d) =>
        if Source.is_event d then [Source._parse_event parse d] else []
    | Ok DataOther => []
    | Raise _ => []
    end.
Proof.
  pose proof (yield_for_each_append (Source._parse_event parse)) as Hloop.
  unfold Spec.yield in *. unfold Source.schema_script, bind, call.
  destruct (json_loads s) as [[items|d|]|e]; [| |done..].
  - rewrite event_items_all_objects.
    destruct (View.all_objects items); [apply Hloop|done].
  - rewrite Hloop. by destruct (Source.is_event d).
Qed.

(** ** The aggregator, for any sources *)

Section AggregatorMore.
Variable requests_get : string → result Response.
Variable soup_select : string → string → result (list Tag).
Variable soup_ld_json : string → result (list (option string)).
Variable json_loads : string → result LdData.
Variable parse : string → option datetime.
Variable parse_fuzzy : string → option datetime.
Variable urljoin : string → string → string.
Variable hash : string → Z.
Variable now : nat → datetime.
Variable write_file : nat → string → Calendar → result unit.

Lemma collect_events_flat_map sources :
  Aggregator.collect_events requests_get soup_select soup_ld_json json_loads
    parse parse_fuzzy urljoin sources
  = Ok (flat_map
          (λ source,
             View.fetched
               (Source.fetch_events requests_get soup_select soup_ld_json
                  json_loads parse parse_fuzzy urljoin source))
          sources).
Proof.
  induction sources as [|source sources IH] using rev_ind; [done|].
  rewrite collect_events_snoc, IH, flat_map_app. simpl. rewrite app_nil_r.
  unfold View.fetched.
  destruct (fetch_events_ok requests_get soup_select soup_ld_json json_loads
              parse parse_fuzzy urljoin source) as (events & out & ->).
  done.
Qed.

(** X23. [collect_events] never raises: it returns the records of the
    sources, source after source in the order of the list, each source's
    records in the order its [fetch_events] returned them. *)
Theorem collect_events_concat sources :
  Aggregator.collect_events requests_get soup_select soup_ld_json json_loads
    parse parse_fuzzy urljoin sources
  = Ok (flat_map
          (λ source,
             View.fetched
               (Source.fetch_events requests_get soup_select soup_ld_json
                  json_loads parse parse_fuzzy urljoin source))
          sources).
Proof. apply collect_events_flat_map. Qed.

(** X24. A source whose page load fails contributes nothing and does
    not disturb the others: the collected records are those collected
    without it. *)
Theorem failed_source_contributes_nothing before source after e :
  View.load_fails requests_get soup_select soup_ld_json source e →
  Aggregator.collect_events requests_get soup_select soup_ld_json json_loads
    parse parse_fuzzy urljoin (before ++ source :: after)
  = Aggregator.collect_events requests_get soup_select soup_ld_json json_loads
      parse parse_fuzzy urljoin (before ++ after).
Proof.
  intros Hload. rewrite !collect_events_flat_map, !flat_map_app. simpl.
  by rewrite (fetched_load_fails requests_get soup_select soup_ld_json json_loads
                parse parse_fuzzy urljoin source e Hload).
Qed.

(** The run of [generate_calendars]: nothing is written when the
    filter raises; otherwise the calls of [_save_calendar] are made on
    the filtered list. *)
Lemma generate_calendars_run sources config :
  Aggregator.generate_calendars requests_get soup_select soup_ld_json
    json_loads parse parse_fuzzy urljoin hash now write_file sources config
  = match EventFilter.filter_events parse (Aggregator.event_filter config)
            (flat_map
               (λ source,
                  View.fetched
                    (Source.fetch_events requests_get soup_select soup_ld_json
                       json_loads parse parse_fuzzy urljoin source))
               sources) with
    | Raise e => (Raise e, [])
    | Ok filtered =>
        Aggregator.save_all hash now write_file config
          (Aggregator.save_calls config filtered)
    end.
Proof. apply generate_calendars_collected, collect_events_flat_map. Qed.

(** The files the calls on a filtered list are to write: their names,
    their contents and their order. *)
Lemma ics_files_of_calls config filtered :
  map (Aggregator.ics_file hash now config) (Aggregator.save_calls config filtered)
  = (default "events.ics" (main_calendar (default no_outputs (outputs config))),
     Generator.generate hash now (Aggregator.generator config) filtered None)
    :: (if by_location (default no_outputs (outputs config)) then
          map (λ '(location, events),
                 ("events_" +:+ Aggregator.safe_location location +:+ ".ics",
                  Generator.generate hash now (Aggregator.generator config) events
                    (Some ("Events - " +:+ location))))
              (EventFilter.get_location_groups filtered)
        else [])
    ++ (if by_month (default no_outputs (outputs config)) then
          map (λ '(month_key, events),
                 ("events_" +:+ month_key +:+ ".ics",
                  Generator.generate hash now (Aggregator.generator config) events
                    (Some ("Events - " +:+ month_key))))
              (Aggregator._group_by_month filtered)
        else []).
Proof.
  unfold Aggregator.save_calls. cbn [app map]. rewrite map_app.
  f_equal. f_equal.
  - destruct (by_location _); [|done]. rewrite map_map.
    apply map_ext. by intros [location events].
  - destruct (by_month _); [|done]. rewrite map_map.
    apply map_ext. by intros [month_key events].
Qed.

(** How a run on a filtered list ends, in terms of the files. *)
Lemma generate_calendars_outcome sources config filtered :
  EventFilter.filter_events parse (Aggregator.event_filter config)
    (flat_map
       (λ source,
          View.fetched
            (Source.fetch_events requests_get soup_select soup_ld_json
               json_loads parse parse_fuzzy urljoin source))
       sources) = Ok filtered →
  let files := map (Aggregator.ics_file hash now config)
                   (Aggregator.save_calls config filtered) in
  let run := Aggregator.generate_calendars requests_get soup_select soup_ld_json
               json_loads parse parse_fuzzy urljoin hash now write_file
               sources config in
  ∃ k : nat,
    snd run = take k files
    ∧ match fst run with
      | Ok _ => k = length files
      | Raise e => ∃ file, files !! k = Some file
                           ∧ write_file k (fst file) (snd file) = Raise e
      end
    ∧ ∀ (i : nat) file, (i < k)%nat → files !! i = Some file →
        write_file i (fst file) (snd file) = Ok tt.
Proof.
  intros Hfiltered files run. unfold run, files.
  rewrite generate_calendars_run, Hfiltered.
  destruct (save_all_written hash now write_file config
              (Aggregator.save_calls config filtered)) as (k & Hsnd & Hfst & Hbefore).
  exists k. split; [|split].
  - rewrite Hsnd. symmetry. apply firstn_map.
  - destruct (fst (Aggregator.save_all _ _ _ _ _)) as [u|e].
    + by rewrite length_map.
    + destruct Hfst as (c & Hlook & Hc).
      exists (Aggregator.ics_file hash now config c). split; [|exact Hc].
      by rewrite (list_lookup_fmap (Aggregator.ics_file hash now config)), Hlook.
  - intros i file Hi Hlook.
    rewrite (list_lookup_fmap (Aggregator.ics_file hash now config)) in Hlook.
    destruct (Aggregator.save_calls config filtered !! i) as [c|] eqn:Hc;
      [|discriminate].
    injection Hlook as <-. by apply (Hbefore i c).
Qed.


(** When the filter returns and no write raises, the run returns and
    every file is written. *)
Lemma generate_calendars_ok sources config filtered :
  EventFilter.filter_events parse (Aggregator.event_filter config)
    (flat_map
       (λ source,
          View.fetched
            (Source.fetch_events requests_get soup_select soup_ld_json
               json_loads parse parse_fuzzy urljoin source))
       sources) = Ok filtered →
  (∀ (n : nat) call,
     Aggregator.save_calls config filtered !! n = Some call →
     Aggregator._save_calendar hash now write_file config n call = Ok tt) →
  Aggregator.generate_calendars requests_get soup_select soup_ld_json
    json_loads parse parse_fuzzy urljoin hash now write_file sources config
  = (Ok tt, map (Aggregator.ics_file hash now config)
                (Aggregator.save_calls config filtered)).
Proof.
  intros Hfiltered Hwrites. rewrite generate_calendars_run, Hfiltered.
  by apply save_all_ok.
Qed.

(** What leaves [generate_calendars] has left [filter_events] or a
    write. *)
Lemma generate_calendars_raise sources config e :
  fst (Aggregator.generate_calendars requests_get soup_select soup_ld_json
         json_loads parse parse_fuzzy urljoin hash now write_file sources config)
  = Raise e →
  EventFilter.filter_events parse (Aggregator.event_filter config)
    (flat_map
       (λ source,
          View.fetched
            (Source.fetch_events requests_get soup_select soup_ld_json
               json_loads parse parse_fuzzy urljoin source))
       sources) = Raise e
  ∨ ∃ (k : nat) filename content, write_file k filename content = Raise e.
Proof.
  rewrite generate_calendars_run.
  destruct (EventFilter.filter_events _ _ _) as [filtered|e'].
  - intros Hrun. right.
    destruct (save_all_written hash now write_file config
                (Aggregator.save_calls config filtered)) as (k & _ & Hfst & _).
    rewrite Hrun in Hfst. destruct Hfst as (c & _ & Hc).
    by exists k, (Aggregator.save_filename c),
      (snd (Aggregator.ics_file hash now config c)).
  - intros [= ->]. by left.
Qed.

(** The main calendar is the first file: when its write raises, nothing
    is written and the run ends with that exception; otherwise it is
    written, before any other file. *)
Lemma generate_calendars_main_file sources config filtered :
  EventFilter.filter_events parse (Aggregator.event_filter config)
    (flat_map
       (λ source,
          View.fetched
            (Source.fetch_events requests_get soup_select soup_ld_json
               json_loads parse parse_fuzzy urljoin source))
       sources) = Ok filtered →
  let main_file :=
    (default "events.ics" (main_calendar (default no_outputs (outputs config))),
     Generator.generate hash now (Aggregator.generator config) filtered None) in
  let run := Aggregator.generate_calendars requests_get soup_select soup_ld_json
               json_loads parse parse_fuzzy urljoin hash now write_file
               sources config in
  match write_file 0 (fst main_file) (snd main_file) with
  | Raise e => run = (Raise e, [])
  | Ok _ => ∃ rest, snd run = main_file :: rest
  end.
Proof.
  intros Hfiltered main_file run.
  destruct (generate_calendars_outcome sources config filtered Hfiltered)
    as (k & Hsnd & Hfst & Hbefore).
  fold run in Hsnd, Hfst. rewrite ics_files_of_calls in Hsnd, Hfst, Hbefore.
  fold main_file in Hsnd, Hfst, Hbefore.
  destruct k as [|k].
  - destruct run as [[u|e] written]; cbn [fst snd] in *; [discriminate|].
    destruct Hfst as (file & [= <-] & ->). by subst written.
  - rewrite (Hbefore O main_file) by (done || lia). eauto.
Qed.

(** X25. [generate_calendars] raises what [filter_events] raises, and
    then writes nothing.  Otherwise it has these files to write, in this
    order: the main calendar, under the configured name or [events.ics],
    made from the whole filtered list; then, if asked for, one file per
    location group, in the order of the groups, named after the group's
    location with the unsafe characters removed and made from the
    group's records under the name of the location; then, if asked for,
    one per month group likewise.  It writes them up to the first write
    that raises and ends with the exception of that write; it returns
    when no write raises, with every file written. *)
Theorem generate_calendars_files sources config :
  let outputs := default no_outputs (outputs config) in
  let all_events :=
    flat_map
      (λ source,
         View.fetched
           (Source.fetch_events requests_get soup_select soup_ld_json
              json_loads parse parse_fuzzy urljoin source))
      sources in
  let run := Aggregator.generate_calendars requests_get soup_select soup_ld_json
               json_loads parse parse_fuzzy urljoin hash now write_file
               sources config in
  (∀ e, EventFilter.filter_events parse (Aggregator.event_filter config) all_events
        = Raise e → run = (Raise e, []))
  ∧ ∀ filtered,
      EventFilter.filter_events parse (Aggregator.event_filter config) all_events
      = Ok filtered →
      let files :=
        (default "events.ics" (main_calendar outputs),
         Generator.generate hash now (Aggregator.generator config) filtered None)
        :: (if by_location outputs then
              map (λ '(location, events),
                     ("events_" +:+ Aggregator.safe_location location +:+ ".ics",
                      Generator.generate hash now (Aggregator.generator config) events
                        (Some ("Events - " +:+ location))))
                  (EventFilter.get_location_groups filtered)
            else [])
        ++ (if by_month outputs then
              map (λ '(month_key, events),
                     ("events_" +:+ month_key +:+ ".ics",
                      Generator.generate hash now (Aggregator.generator config) events
                        (Some ("Events - " +:+ month_key))))
                  (Aggregator._group_by_month filtered)
            else []) in
      (∃ k : nat,
         snd run = take k files
         ∧ match fst run with
           | Ok _ => k = length files
           | Raise e => ∃ file, files !! k = Some file
                                ∧ write_file k (fst file) (snd file) = Raise e
           end
         ∧ ∀ (i : nat) file, (i < k)%nat → files !! i = Some file →
             write_file i (fst file) (snd file) = Ok tt)
      ∧ ((∀ (i : nat) file, files !! i = Some file →
            write_file i (fst file) (snd file) = Ok tt) →
         run = (Ok tt, files)).
Proof.
  intros outs all_events run. split.
  - intros e He. unfold run. rewrite generate_calendars_run.
    fold all_events. by rewrite He.
  - intros filtered Hfiltered files.
    assert (files = map (Aggregator.ics_file hash now config)
                        (Aggregator.save_calls config filtered)) as ->
      by (symmetry; apply ics_files_of_calls).
    split; [by apply generate_calendars_outcome|].
    intros Hwrites. apply generate_calendars_ok; [done|].
    intros n call Hcall. unfold Aggregator._save_calendar.
    apply (Hwrites n (Aggregator.ics_file hash now config call)).
    by rewrite (list_lookup_fmap (Aggregator.ics_file hash now config)), Hcall.
Qed.

End AggregatorMore.


Section AggregatorEnd.
Variable requests_get : string → result Response.
Variable soup_select : string → string → result (list Tag).
Variable soup_ld_json : string → result (list (option string)).
Variable json_loads : string → result LdData.
Variable parse : string → option datetime.
Variable parse_fuzzy : string → option datetime.
Variable urljoin : string → string → string.
Variable hash : string → Z.
Variable now : nat → datetime.
Variable write_file : nat → string → Calendar → result unit.




End AggregatorEnd.


(** ** From the configuration file to the sources *)

Lemma foldl_keep_map {A B} (keep : A → bool) (g : A → B) (f : list B → A → list B) :
  (∀ acc x, f acc x = if keep x then acc ++ [g x] else acc) →
  ∀ l acc, foldl f acc l = acc ++ (g <$> filter (λ x, keep x) l).
Proof.
  intros Hf l. induction l as [|x l IH]; intros acc; simpl.
  - by rewrite app_nil_r.
  - rewrite IH, Hf, filter_cons. destruct (keep x); simpl.
    + by rewrite <- app_assoc.
    + done.
Qed.

Lemma create_sources_usable config :
  Setup.create_sources_from_config config
  = View.source_of <$> filter (λ e, View.usable e) (default [] (cf_sources config)).
Proof.
  unfold Setup.create_sources_from_config.
  rewrite (foldl_keep_map View.usable View.source_of); [done|].
  intros acc entry. unfold View.usable, View.source_of.
  destruct (default true (sc_enabled entry)); simpl; [|done].
  destruct (Py.truthy_opt (sc_url entry)); simpl; [|done].
  destruct (String.eqb (default "schema" (sc_type entry)) "html"); simpl; [done|].
  by destruct (String.eqb (default "schema" (sc_type entry)) "schema").
Qed.

(** X28. [create_sources_from_config] makes one source per usable entry
    of the [sources] list, in the order of the list: an entry that is
    switched off, has no address or an empty one, or names a type other
    than html and schema is passed over; an entry without a type counts
    as schema.  Every source made has a non-empty address. *)
Theorem sources_from_config config :
  let entries := default [] (cf_sources config) in
  let sources := Setup.create_sources_from_config config in
  sources = View.source_of <$> filter (λ e, View.usable e) entries
  ∧ (∀ source, source ∈ sources → View.source_url source ≠ "")
  ∧ (length sources ≤ length entries)%nat
  ∧ (∀ entry, entry ∈ entries → View.usable entry = true →
       sc_type entry = None →
       View.source_of entry = Schema (mk_schema_source (default "" (sc_url entry)))
       ∧ View.source_of entry ∈ sources).
Proof.
  intros entries sources. unfold sources. rewrite create_sources_usable.
  fold entries. split; [done|]. split; [|split].
  - intros source (entry & -> & [Huse _]%list_elem_of_filter)%list_elem_of_fmap.
    unfold View.usable in Huse. apply Is_true_true in Huse.
    apply andb_prop in Huse as [[_ Hurl]%andb_prop _].
    assert (View.source_url (View.source_of entry) = default "" (sc_url entry)) as ->.
    { unfold View.source_of. by destruct (String.eqb _ "html"). }
    by destruct (sc_url entry) as [[|? ?]|].
  - rewrite length_fmap. apply length_filter.
  - intros entry Hin Huse Htype. split.
    + unfold View.source_of. by rewrite Htype.
    + apply list_elem_of_fmap. exists entry. split; [done|].
      apply list_elem_of_filter. by rewrite Huse.
Qed.

Section MainFacts.
Variable requests_get : string → result Response.
Variable soup_select : string → string → result (list Tag).
Variable soup_ld_json : string → result (list (option string)).
Variable json_loads : string → result LdData.
Variable parse : string → option datetime.
Variable parse_fuzzy : string → option datetime.
Variable urljoin : string → string → string.
Variable hash : string → Z.
Variable now : nat → datetime.
Variable write_file : nat → string → Calendar → result unit.

(** X29. [main] ends with the exception of reading the configuration
    when that fails other than by the file being absent.  Without a
    configuration file, or with one that has no usable source, it
    returns and writes nothing.  With a usable source it is the run of
    [generate_calendars] on the sources of the usable entries: what it
    raises then has left [filter_events] (nothing is written) or a
    write; when the filter returns, the main calendar, under the
    configured name or [events.ics], is the first file written, unless
    its write raises. *)
Theorem main_outcome file :
  let run := Setup.main requests_get soup_select soup_ld_json json_loads parse
               parse_fuzzy urljoin hash now write_file file in
  match file with
  | Failed e => run = (Raise e, [])
  | NotFound => run = (Ok tt, [])
  | Loaded config =>
      let usable := filter (λ e, View.usable e) (default [] (cf_sources config)) in
      let sources := View.source_of <$> usable in
      let filtering :=
        EventFilter.filter_events parse (Aggregator.event_filter (settings config))
          (flat_map
             (λ source,
                View.fetched
                  (Source.fetch_events requests_get soup_select soup_ld_json
                     json_loads parse parse_fuzzy urljoin source))
             sources) in
      if EventFilter.nonempty usable
      then run = Aggregator.generate_calendars requests_get soup_select
                   soup_ld_json json_loads parse parse_fuzzy urljoin hash now
                   write_file sources (settings config)
           ∧ (∀ e, fst run = Raise e →
                filtering = Raise e
                ∨ ∃ (k : nat) filename content,
                    write_file k filename content = Raise e)
           ∧ (∀ e, filtering = Raise e → run = (Raise e, []))
           ∧ (∀ filtered, filtering = Ok filtered →
                let main_file :=
                  (default "events.ics"
                     (main_calendar (default no_outputs (outputs (settings config)))),
                   Generator.generate hash now
                     (Aggregator.generator (settings config)) filtered None) in
                match write_file 0 (fst main_file) (snd main_file) with
                | Raise e => run = (Raise e, [])
                | Ok _ => ∃ rest, snd run = main_file :: rest
                end)
      else run = (Ok tt, [])
  end.
Proof.
  intros run. destruct file as [|e|config]; [done..|].
  intros usable sources filtering.
  assert (run = if EventFilter.nonempty usable
                then Aggregator.generate_calendars requests_get soup_select
                       soup_ld_json json_loads parse parse_fuzzy urljoin hash now
                       write_file sources (settings config)
                else (Ok tt, [])) as Hrun.
  { unfold run, Setup.main. cbn [Setup.load_config]. cbv zeta.
    rewrite create_sources_usable. fold usable sources. unfold sources.
    by destruct usable. }
  destruct (EventFilter.nonempty usable); [|done].
  split; [done|]. rewrite Hrun. split; [|split].
  - intros e. apply generate_calendars_raise.
  - intros e He. rewrite generate_calendars_run. fold filtering. by rewrite He.
  - intros filtered Hfiltered.
    by apply generate_calendars_main_file.
Qed.

End MainFacts.

Lemma failed_source_contributes_nothing_witness :
  Aggregator.collect_events Sample.requests_get Sample.soup_select
    Sample.soup_ld_json Sample.json_loads Sample.parse Sample.parse_fuzzy
    Sample.urljoin
    ([HTML Sample.site] ++ Schema (mk_schema_source "https://example.org/down")
       :: [Schema Sample.markup])
  = Aggregator.collect_events Sample.requests_get Sample.soup_select
      Sample.soup_ld_json Sample.json_loads Sample.parse Sample.parse_fuzzy
      Sample.urljoin ([HTML Sample.site] ++ [Schema Sample.markup]).
Proof.
  apply (failed_source_contributes_nothing Sample.requests_get Sample.soup_select
           Sample.soup_ld_json Sample.json_loads Sample.parse Sample.parse_fuzzy
           Sample.urljoin _ _ _ (Exception "ConnectionError")).
  reflexivity.
Defined.

(** ** From a postal address to a location group *)

Lemma string_app_assoc x y z : (x +:+ y) +:+ z = x +:+ y +:+ z.
Proof. apply chars_inj. by rewrite !chars_app, app_assoc. Qed.

Lemma rev_append x y : String.rev (x +:+ y) = String.rev y +:+ String.rev x.
Proof. apply chars_inj. by rewrite chars_app, !chars_rev, chars_app, reverse_app. Qed.

Lemma rev_cons c x : String.rev (String c x) = String.rev x +:+ String c "".
Proof. apply (rev_append (String c "") x). Qed.

Lemma lstrip_app_nonspace x c y :
  Py.isspace c = false →
  Py.lstrip (x +:+ String c y) = Py.lstrip x +:+ String c y.
Proof.
  intros Hc. induction x as [|c0 x IH].
  - change ("" +:+ String c y) with (String c y). simpl. by rewrite Hc.
  - change (String c0 x +:+ String c y) with (String c0 (x +:+ String c y)).
    simpl. by destruct (Py.isspace c0).
Qed.

Lemma lstrip_app_space x c :
  Py.isspace c = true →
  Py.lstrip (x +:+ String c "")
  = match Py.lstrip x with "" => "" | _ => Py.lstrip x +:+ String c "" end.
Proof.
  intros Hc. induction x as [|c0 x IH].
  - change ("" +:+ String c "") with (String c ""). simpl. by rewrite Hc.
  - change (String c0 x +:+ String c "") with (String c0 (x +:+ String c "")).
    simpl. by destruct (Py.isspace c0).
Qed.

Lemma rstrip_app_nonspace a c b :
  Py.isspace c = false →
  Py.rstrip (a +:+ String c b) = a +:+ String c (Py.rstrip b).
Proof.
  intros Hc. unfold Py.rstrip.
  rewrite rev_append, rev_cons, string_app_assoc.
  change (String c "" +:+ String.rev a) with (String c (String.rev a)).
  rewrite lstrip_app_nonspace by done.
  rewrite rev_append, rev_cons, rev_involutive, string_app_assoc. done.
Qed.

Lemma strip_cons_space c s :
  Py.isspace c = true → Py.strip (String c s) = Py.strip s.
Proof.
  intros Hc. unfold Py.strip, Py.rstrip. rewrite rev_cons, lstrip_app_space by done.
  destruct (Py.lstrip (String.rev s)) as [|c1 t] eqn:Hl; [done|].
  rewrite rev_append. change (String.rev (String c "")) with (String c "").
  change (String c "" +:+ String.rev (String c1 t))
    with (String c (String.rev (String c1 t))).
  simpl. by rewrite Hc.
Qed.

Lemma elem_of_chars_rstrip c s :
  c ∈ View.chars (Py.rstrip s) → c ∈ View.chars s.
Proof.
  unfold Py.rstrip. rewrite chars_rev, elem_of_reverse.
  intros H%elem_of_chars_lstrip. by rewrite chars_rev, elem_of_reverse in H.
Qed.

Lemma location_key_of_address street city :
  Py.truthy city = true → Py.contains "," city = false →
  EventFilter._normalize_location (street +:+ ", " +:+ city) = Py.strip city.
Proof.
  intros Hcity Hcomma.
  rewrite (normalize_location_last_segment _ (Py.lstrip street)
             (Py.rstrip (String " " city))).
  - unfold Py.strip at 1. rewrite rstrip_idempotent.
    by apply (strip_cons_space " " city).
  - unfold Py.strip.
    change (street +:+ ", " +:+ city) with (street +:+ String "," (String " " city)).
    rewrite rstrip_app_nonspace, lstrip_app_nonspace by done. done.
  - apply no_comma_chars. intros H%elem_of_chars_rstrip.
    unfold View.chars in H. simpl in H. apply elem_of_cons in H as [H|H]; [done|].
    by apply no_comma_chars in Hcomma.
Qed.

(** X30. A JSON-LD event whose location has no name but a postal
    address with a locality (non-empty, without a comma) is filed under
    its trimmed locality by [get_location_groups], with or without a
    street address. *)
Theorem address_grouped_by_locality parse data name street city :
  ld_location data = Some (LocDict name (Some (AddrDict street (Some city)))) →
  Py.truthy_opt name = false →
  Py.truthy city = true →
  Py.contains "," city = false →
  location (Source._parse_event parse data)
  = Some (if Py.truthy_opt street then default "" street +:+ ", " +:+ city else city)
  ∧ Spec.location_key (Source._parse_event parse data) = Py.strip city.
Proof.
  intros Hloc Hname Hcity Hcomma.
  assert (location (Source._parse_event parse data)
          = Some (if Py.truthy_opt street
                  then default "" street +:+ ", " +:+ city else city)) as Hl.
  { unfold Source._parse_event. simpl. rewrite Hloc. simpl. rewrite Hname.
    destruct street as [[|c s]|]; simpl; by rewrite Hcity. }
  split; [exact Hl|].
  unfold Spec.location_key. rewrite Hl. simpl.
  destruct (Py.truthy_opt street).
  - by apply location_key_of_address.
  - rewrite normalize_location_no_comma.
    + done.
    + apply no_comma_chars. intros H%elem_of_chars_strip.
      by apply no_comma_chars in Hcomma.
Qed.

Lemma address_grouped_by_locality_witness :
  Spec.location_key
    (Source._parse_event Sample.parse
       (mk_ld (Some "Event") (Some "Fair") None None
              (Some (LocDict None (Some (AddrDict (Some "1 Long Row") (Some "Leeds ")))))
              None None))
  = "Leeds".
Proof.
  apply (address_grouped_by_locality Sample.parse _ None (Some "1 Long Row") "Leeds ");
    reflexivity.
Defined.
